(** * Hotel booking dashboard: the filter-and-aggregate pipeline

    A shallow embedding of [hotel_dashbord.py].  The script loads a table of
    bookings, derives an arrival date, reads two sidebar selections, filters
    the table and draws eleven panels, each inside its own [try]/[except].

    The table is a list of rows; a pandas [Series] with an index is a list of
    (label, value) pairs in index order; a missing value (NaN, NaT) is [None].
    Real-valued columns are exact rationals. *)

From Stdlib Require Import List Bool Arith ZArith QArith Qround Qabs Lia Lqa.
From Stdlib Require Import String Ascii Permutation Sorted.
From Stdlib Require Import Decimal DecimalString DecimalZ DecimalPos.
Import ListNotations.
Local Open Scope string_scope.
Local Open Scope list_scope.

Set Implicit Arguments.

(** ** Data model *)

(** One row of [hotel_bookings.csv], with the columns the script reads. *)
Record Booking := mkBooking {
  hotel : string;
  is_canceled : bool;
  lead_time : Z;
  arrival_date_year : Z;
  arrival_date_month : string;
  arrival_date_day_of_month : Z;
  stays_in_weekend_nights : Z;
  stays_in_week_nights : Z;
  adults : Z;
  children : option Z;
  babies : Z;
  country : option string;
  market_segment : option string;
  distribution_channel : option string;
  adr : Q
}.

Definition DataFrame := list Booking.

(** A pandas Series: labels paired with values, in index order. *)
Definition Series (K V : Type) := list (K * V).

Definition month_order : list string :=
  ["January"; "February"; "March"; "April"; "May"; "June";
   "July"; "August"; "September"; "October"; "November"; "December"].

(** ** Column operations of the table library *)

Section Columns.
Variable A : Type.
Variable eqb : A -> A -> bool.

(** [x in values], the element test behind [Series.isin]. *)
Fixpoint mem (x : A) (values : list A) : bool :=
  match values with
  | [] => false
  | v :: rest => eqb x v || mem x rest
  end.

(** [Series.isin(values)]: one boolean per row. *)
Definition isin (col : list A) (values : list A) : list bool :=
  map (fun x => mem x values) col.

(** [Series.unique()]: distinct values in order of first appearance. *)
Fixpoint unique_from (seen : list A) (col : list A) : list A :=
  match col with
  | [] => []
  | x :: rest =>
      if mem x seen then unique_from seen rest
      else x :: unique_from (x :: seen) rest
  end.

Definition unique (col : list A) : list A := unique_from [] col.

(** Number of rows of [col] holding [x]. *)
Fixpoint count (x : A) (col : list A) : nat :=
  match col with
  | [] => 0
  | y :: rest => (if eqb x y then 1 else 0) + count x rest
  end.

(** Position of the first row of [col] holding [x] ([length col] when
    there is none). *)
Fixpoint first_seen (x : A) (col : list A) : nat :=
  match col with
  | [] => 0
  | y :: rest => if eqb x y then 0 else S (first_seen x rest)
  end.
End Columns.

(** [df[mask]]: the rows whose mask entry is [True]. *)
Fixpoint select_rows (A : Type) (rows : list A) (mask : list bool) : list A :=
  match rows, mask with
  | r :: rows', b :: mask' =>
      if b then r :: select_rows rows' mask' else select_rows rows' mask'
  | _, _ => []
  end.

(** Elementwise [&] of two boolean columns. *)
Fixpoint mask_and (m1 m2 : list bool) : list bool :=
  match m1, m2 with
  | a :: m1', b :: m2' => (a && b) :: mask_and m1' m2'
  | _, _ => []
  end.

(** ** Sidebar filters *)

(** A [st.sidebar.multiselect] call: its options and its [default=]. *)
Record Multiselect := mkMultiselect {
  options : list string;
  default : list string
}.

Definition hotel_type_widget (df : DataFrame) : Multiselect :=
  {| options := unique String.eqb (map hotel df);
     default := unique String.eqb (map hotel df) |}.

Definition month_widget (df : DataFrame) : Multiselect :=
  {| options := unique String.eqb (map arrival_date_month df);
     default := month_order |}.

(** [df[df['hotel'].isin(hotel_type) & df['arrival_date_month'].isin(month)]] *)
Definition df_filtered (df : DataFrame) (hotel_type month : list string)
  : DataFrame :=
  select_rows df
    (mask_and (isin String.eqb (map hotel df) hotel_type)
              (isin String.eqb (map arrival_date_month df) month)).

(** ** Series operations of the table library *)

(** [Series.dropna()] on a column with missing values. *)
Fixpoint dropna (A : Type) (col : list (option A)) : list A :=
  match col with
  | [] => []
  | Some x :: rest => x :: dropna rest
  | None :: rest => dropna rest
  end.

Section SeriesOps.
Variables K V : Type.
Variable ltb : V -> V -> bool.

(** One step of the stable descending sort: [e] stood before every entry
    of [s] and stays before those that are not strictly greater. *)
Fixpoint insert_desc (e : K * V) (s : Series K V) : Series K V :=
  match s with
  | [] => [e]
  | e' :: s' =>
      if ltb (snd e) (snd e') then e' :: insert_desc e s' else e :: s
  end.

(** [Series.sort_values(ascending=False)]: descending by value, entries
    with equal values kept in their previous relative order. *)
Fixpoint sort_values_desc (s : Series K V) : Series K V :=
  match s with
  | [] => []
  | e :: s' => insert_desc e (sort_values_desc s')
  end.

(** [Series.head(n)]. *)
Definition head (n : nat) (s : Series K V) : Series K V := firstn n s.

Variable keqb : K -> K -> bool.

(** [s[k]] when the label is present. *)
Fixpoint get (k : K) (s : Series K V) : option V :=
  match s with
  | [] => None
  | (k', v) :: s' => if keqb k k' then Some v else get k s'
  end.

(** [Series.reindex(index)]: one entry per label of [index], in that
    order; a label the series lacks gets a missing value. *)
Definition reindex (s : Series K V) (index : list K) : Series K (option V) :=
  map (fun k => (k, get k s)) index.
End SeriesOps.

Section ValueCounts.
Variable K : Type.
Variable keqb : K -> K -> bool.

(** [Series.value_counts()] on a column without missing values: the
    distinct values in order of first appearance with their counts, then
    sorted by descending count. *)
Definition value_counts (col : list K) : Series K nat :=
  sort_values_desc Nat.ltb
    (map (fun k => (k, count keqb k col)) (unique keqb col)).

(** [counts.sum()] *)
Definition counts_sum (s : Series K nat) : nat :=
  fold_right Nat.add 0%nat (map snd s).

(** [Series.value_counts(normalize=True)]: the sorted counts divided by
    their sum. *)
Definition value_counts_normalize (col : list K) : Series K Q :=
  let s := value_counts col in
  map (fun e => (fst e,
                 (inject_Z (Z.of_nat (snd e))
                  / inject_Z (Z.of_nat (counts_sum s)))%Q))
      s.
End ValueCounts.

(** [s * 100] and [s.mul(100)] *)
Definition mul (K : Type) (c : Q) (s : Series K Q) : Series K Q :=
  map (fun e => (fst e, (snd e * c)%Q)) s.

(** Nearest integer, halves to the even neighbour. *)
Definition rint (x : Q) : Z :=
  let f := Qfloor x in
  match ((x - inject_Z f) ?= (1 # 2))%Q with
  | Lt => f
  | Gt => (f + 1)%Z
  | Eq => if Z.even f then f else (f + 1)%Z
  end.

(** [round(x, 1)]: scale by ten, round to the nearest integer, scale back. *)
Definition round1 (x : Q) : Q :=
  (inject_Z (rint (x * inject_Z 10)) / inject_Z 10)%Q.

(** [Series.round(1)] *)
Definition round (K : Type) (s : Series K Q) : Series K Q :=
  map (fun e => (fst e, round1 (snd e))) s.

(** Sum of the values of a series. *)
Definition Qsum (l : list Q) : Q := fold_right Qplus 0%Q l.

(** ** Panel statistics *)

(** Panel 1: [df_filtered['is_canceled'].value_counts(normalize=True) * 100] *)
Definition cancel_rate (view : DataFrame) : Series bool Q :=
  mul (inject_Z 100) (value_counts_normalize Bool.eqb (map is_canceled view)).

(** Panel 3: [value_counts().reindex(month_order)] on the month column. *)
Definition monthly (view : DataFrame) : Series string (option nat) :=
  reindex String.eqb
    (value_counts String.eqb (map arrival_date_month view)) month_order.

(** Panel 4: [df_filtered['country'].value_counts().head(10)] *)
Definition top_countries (view : DataFrame) : Series string nat :=
  head 10 (value_counts String.eqb (dropna (map country view))).

(** Panel 7: [value_counts(normalize=True).mul(100).round(1)] *)
Definition segment (view : DataFrame) : Series string Q :=
  round (mul (inject_Z 100)
    (value_counts_normalize String.eqb (dropna (map market_segment view)))).

(** Panel 8: the same on the distribution channel. *)
Definition channel (view : DataFrame) : Series string Q :=
  round (mul (inject_Z 100)
    (value_counts_normalize String.eqb
       (dropna (map distribution_channel view)))).

(** Group keys of [groupby]: the distinct non-missing labels, sorted
    ascending. *)
Fixpoint insert_key (k : string) (ks : list string) : list string :=
  match ks with
  | [] => [k]
  | k' :: ks' => if String.ltb k' k then k' :: insert_key k ks' else k :: ks
  end.

Definition sort_keys (ks : list string) : list string :=
  fold_right insert_key [] ks.

(** The [adr] values of the rows of one country. *)
Definition adr_of (c : string) (view : DataFrame) : list Q :=
  map adr
    (filter (fun r => match country r with
                      | Some c' => String.eqb c c'
                      | None => false
                      end) view).

(** [mean()] of a non-empty group. *)
Definition mean (xs : list Q) : Q :=
  (Qsum xs / inject_Z (Z.of_nat (List.length xs)))%Q.

(** [df_filtered.groupby('country')['adr'].mean()] *)
Definition adr_by_country (view : DataFrame) : Series string Q :=
  map (fun c => (c, mean (adr_of c view)))
      (sort_keys (unique String.eqb (dropna (map country view)))).

Definition Qltb (a b : Q) : bool := negb (Qle_bool b a).

(** Panel 10: [....mean().sort_values(ascending=False).head(10)] *)
Definition top_adr (view : DataFrame) : Series string Q :=
  head 10 (sort_values_desc Qltb (adr_by_country view)).

(** Panel 9: weekday plus weekend nights of each booking. *)
Definition total_stay_of (view : DataFrame) : list Z :=
  map (fun r => (stays_in_week_nights r + stays_in_weekend_nights r)%Z) view.

(** Panel 11: [df_filtered[['adults', 'children', 'babies']].sum()], missing
    values skipped. *)
Definition guests (view : DataFrame) : Series string Z :=
  [("adults", fold_right Z.add 0%Z (map adults view));
   ("children", fold_right Z.add 0%Z (dropna (map children view)));
   ("babies", fold_right Z.add 0%Z (map babies view))].

(** ** Sample tables *)

(** A booking with the given hotel, cancellation flag, month and country;
    the other columns hold fixed values. *)
Definition sample_row (h : string) (c : bool) (m : string)
    (ctry : option string) (rate : Q) : Booking :=
  {| hotel := h; is_canceled := c; lead_time := 10;
     arrival_date_year := 2016; arrival_date_month := m;
     arrival_date_day_of_month := 1;
     stays_in_weekend_nights := 1; stays_in_week_nights := 2;
     adults := 2; children := Some 0%Z; babies := 0;
     country := ctry; market_segment := Some "Direct";
     distribution_channel := Some "Direct"; adr := rate |}.

(** One booking for each canonical month and one whose month is spelled
    differently. *)
Definition table_with_odd_month : DataFrame :=
  map (fun m => sample_row "City Hotel" false m (Some "PRT") (inject_Z 100))
      (month_order ++ ["Jul"]).

(** The predicate of the filtered view on one row. *)
Definition row_selected (hotel_type month : list string) (r : Booking) : bool :=
  mem String.eqb (hotel r) hotel_type
  && mem String.eqb (arrival_date_month r) month.

(** A booking whose market segment and distribution channel are missing. *)
Definition row_without_segment : Booking :=
  {| hotel := "City Hotel"; is_canceled := false; lead_time := 10;
     arrival_date_year := 2016; arrival_date_month := "July";
     arrival_date_day_of_month := 1;
     stays_in_weekend_nights := 1; stays_in_week_nights := 2;
     adults := 2; children := Some 0%Z; babies := 0;
     country := Some "PRT"; market_segment := None;
     distribution_channel := None; adr := inject_Z 100 |}.

(** ** Orderings of the top-ten lists *)

(** [s] never ascends in value, and two entries that do not strictly descend
    follow [before] on their labels. *)
Definition sorted_desc_by (K V : Type) (ltb : V -> V -> bool)
    (before : K -> K -> Prop) (s : Series K V) : Prop :=
  StronglySorted
    (fun a b => ltb (snd a) (snd b) = false
                /\ (ltb (snd b) (snd a) = true \/ before (fst a) (fst b)))
    s.

(** [k] is met in [col] before [k'] is. *)
Definition first_encountered (col : list string) (k k' : string) : Prop :=
  (first_seen String.eqb k col < first_seen String.eqb k' col)%nat.

(** Two bookings from different countries at the same rate, the
    alphabetically later country first. *)
Definition two_countries_same_rate : DataFrame :=
  [sample_row "City Hotel" false "July" (Some "PRT") (inject_Z 100);
   sample_row "City Hotel" false "July" (Some "ESP") (inject_Z 100)].

(** ** Panels *)

(** A computation that returns a value or raises an exception with the given
    message. *)
Inductive result (A : Type) : Type :=
| Ok (a : A)
| Raise (e : string).
Arguments Ok {A} a.
Arguments Raise {A} e.

(** What a panel hands to the plotting calls. *)
Inductive Figure : Type :=
| Pie (wedges : list (string * Q))
| CountPlot (x : list string)
| LinePlot (s : Series string (option nat))
| BarPlotCounts (s : Series string nat)
| BoxPlotLeadTime (data : list (bool * Z)) (ticklabels : list string)
| BoxPlotAdr (data : list (string * Q))
| BarPlotShares (s : Series string Q)
| HistPlot (x : list Z) (bins : nat)
| BarPlotRates (s : Series string Q)
| BarPlotGuests (s : Series string Z).

(** [ax.pie(x, labels=labels)]: one wedge per value, labelled by position;
    the two lists must have the same length. *)
Definition pie (x : list Q) (labels : list string)
  : result (list (string * Q)) :=
  if (List.length x =? List.length labels)%nat
  then Ok (combine labels x)
  else Raise "'label' must be of length 'x'".

(** [df_filtered] as the panels see it: the filtered rows, and the
    [total_stay] column once panel 9 has added it. *)
Record Frame := mkFrame {
  rows : DataFrame;
  total_stay : option (list Z)
}.

Definition fresh (view : DataFrame) : Frame :=
  {| rows := view; total_stay := None |}.

Inductive Element : Type :=
| Title (text : string)
| Subheader (text : string)
| Pyplot (fig : Figure)
| Markdown (text : string).

Inductive Level : Type := DEBUG | INFO | WARNING | ERROR | CRITICAL.

Record LogRecord := mkLogRecord {
  levelname : Level;
  message : string
}.

(** The running script: the frame, the page built so far and the log. *)
Record Script := mkScript {
  frame : Frame;
  page : list Element;
  log : list LogRecord
}.

(** One [try] block: its subheader, the message prefix of its [except]
    branch, and the statistic it computes, which may update the frame. *)
Record Panel := mkPanel {
  header : string;
  prefix : string;
  body : Frame -> Frame * result Figure
}.

Definition reading (stat : DataFrame -> result Figure) (f : Frame)
  : Frame * result Figure :=
  (f, stat (rows f)).

Definition panel_1 : Panel :=
  {| header := "📉 Booking Cancellation Rate";
     prefix := "Cancellation chart error: ";
     body := reading (fun view =>
       match pie (map snd (cancel_rate view)) ["Not Canceled"; "Canceled"] with
       | Ok wedges => Ok (Pie wedges)
       | Raise e => Raise e
       end) |}.

Definition panel_2 : Panel :=
  {| header := "🏨 Bookings by Hotel Type";
     prefix := "Hotel type chart error: ";
     body := reading (fun view => Ok (CountPlot (map hotel view))) |}.

Definition panel_3 : Panel :=
  {| header := "📅 Monthly Booking Trends";
     prefix := "Monthly trend chart error: ";
     body := reading (fun view => Ok (LinePlot (monthly view))) |}.

Definition panel_4 : Panel :=
  {| header := "🌍 Top 10 Countries by Bookings";
     prefix := "Top countries chart error: ";
     body := reading (fun view => Ok (BarPlotCounts (top_countries view))) |}.

Definition panel_5 : Panel :=
  {| header := "⏱️ Lead Time vs Cancellation";
     prefix := "Lead time boxplot error: ";
     body := reading (fun view =>
       Ok (BoxPlotLeadTime (map (fun r => (is_canceled r, lead_time r)) view)
                           ["Not Canceled"; "Canceled"])) |}.

Definition panel_6 : Panel :=
  {| header := "💰 ADR by Hotel Type";
     prefix := "ADR chart error: ";
     body := reading (fun view =>
       Ok (BoxPlotAdr (map (fun r => (hotel r, adr r)) view))) |}.

Definition panel_7 : Panel :=
  {| header := "🎯 Market Segment Share (%)";
     prefix := "Market segment error: ";
     body := reading (fun view => Ok (BarPlotShares (segment view))) |}.

Definition panel_8 : Panel :=
  {| header := "📦 Distribution Channel Share (%)";
     prefix := "Distribution channel error: ";
     body := reading (fun view => Ok (BarPlotShares (channel view))) |}.

(** Panel 9 first stores the new column in the frame, then plots it. *)
Definition panel_9 : Panel :=
  {| header := "🛏️ Stay Duration (Weekday + Weekend)";
     prefix := "Stay duration error: ";
     body := fun f =>
       let nights := total_stay_of (rows f) in
       ({| rows := rows f; total_stay := Some nights |},
        Ok (HistPlot nights 20)) |}.

Definition panel_10 : Panel :=
  {| header := "🌐 Top 10 Countries by ADR";
     prefix := "Top ADR chart error: ";
     body := reading (fun view => Ok (BarPlotRates (top_adr view))) |}.

Definition panel_11 : Panel :=
  {| header := "👨‍👩‍👧‍👦 Guest Composition";
     prefix := "Guest composition chart error: ";
     body := reading (fun view => Ok (BarPlotGuests (guests view))) |}.

Definition panels : list Panel :=
  [panel_1; panel_2; panel_3; panel_4; panel_5; panel_6;
   panel_7; panel_8; panel_9; panel_10; panel_11].

Section Dashboard.
(** The drawing calls that follow the statistic in every [try] block
    (the plot itself, [fig.tight_layout()], [st.pyplot(fig)]); any of them
    may raise. *)
Variable draw : Figure -> result unit.

(** [try: ... except Exception as e: logging.error(f"<prefix>{e}")] *)
Definition try_panel (p : Panel) (st : Script) : Script :=
  let shown := page st ++ [Subheader (header p)] in
  let (f, stat) := body p (frame st) in
  let failed e :=
    {| frame := f; page := shown;
       log := log st ++ [{| levelname := ERROR; message := prefix p ++ e |}] |} in
  match stat with
  | Raise e => failed e
  | Ok fig =>
      match draw fig with
      | Raise e => failed e
      | Ok _ => {| frame := f; page := shown ++ [Pyplot fig]; log := log st |}
      end
  end.

Definition run_panels (ps : list Panel) (st : Script) : Script :=
  fold_left (fun st p => try_panel p st) ps st.

(** The script from the page title to the footer, for a list of panels. *)
Definition run_with (ps : list Panel) (view : DataFrame) : Script :=
  let st := run_panels ps
              {| frame := fresh view;
                 page := [Title "🏨 Hotel Booking Dashboard"];
                 log := [] |} in
  {| frame := frame st;
     page := page st ++ [Markdown "---";
                         Markdown "📊 Built with Streamlit | Created by Pravi Jain"];
     log := log st |}.

Definition run_dashboard (view : DataFrame) : Script := run_with panels view.

(** What one panel does on the filtered view when run on its own. *)
Definition outcome (p : Panel) (view : DataFrame) : result Figure :=
  match snd (body p (fresh view)) with
  | Raise e => Raise e
  | Ok fig => match draw fig with
              | Raise e => Raise e
              | Ok _ => Ok fig
              end
  end.

Definition panel_elements (p : Panel) (o : result Figure) : list Element :=
  Subheader (header p) ::
  match o with Ok fig => [Pyplot fig] | Raise _ => [] end.

Definition panel_log (p : Panel) (o : result Figure) : list LogRecord :=
  match o with
  | Ok _ => []
  | Raise e => [{| levelname := ERROR; message := prefix p ++ e |}]
  end.
End Dashboard.

(** The share of the bookings of a view with the given cancellation flag,
    as a percentage. *)
Definition proportion (c : bool) (view : DataFrame) : Q :=
  (inject_Z (Z.of_nat (count Bool.eqb c (map is_canceled view)))
   / inject_Z (Z.of_nat (List.length view)) * inject_Z 100)%Q.

(** A view of one canceled booking. *)
Definition one_canceled : DataFrame :=
  [sample_row "City Hotel" true "July" (Some "PRT") (inject_Z 100)].

(** A backend whose drawing calls never raise. *)
Definition draw_ok (fig : Figure) : result unit := Ok tt.

(** A panel that leaves the rows of the frame as they are and computes its
    statistic from the rows alone. *)
Definition reads_rows (p : Panel) : Prop :=
  forall f, rows (fst (body p f)) = rows f
            /\ snd (body p f) = snd (body p (fresh (rows f))).

(** ** Arrival date *)

(** A calendar date; the time of day of every derived date is midnight. *)
Record Timestamp := mkTimestamp {
  ts_year : Z;
  ts_month : Z;
  ts_day : Z
}.

(** [str(n)] on an integer: its decimal digits, with a leading minus sign
    when negative. *)
Definition str (n : Z) : string := NilZero.string_of_int (Z.to_int n).

(** The text handed to [pd.to_datetime] for one row:
    year, ['-'], month, ['-'], day. *)
Definition arrival_date_text (r : Booking) : string :=
  str (arrival_date_year r) ++ "-" ++ arrival_date_month r ++ "-"
  ++ str (arrival_date_day_of_month r).

Definition digit (c : ascii) : option Z :=
  match c with
  | "0"%char => Some 0%Z | "1"%char => Some 1%Z | "2"%char => Some 2%Z
  | "3"%char => Some 3%Z | "4"%char => Some 4%Z | "5"%char => Some 5%Z
  | "6"%char => Some 6%Z | "7"%char => Some 7%Z | "8"%char => Some 8%Z
  | "9"%char => Some 9%Z
  | _ => None
  end.

(** [%Y]: four digits. *)
Definition parse_year (s : string) : option (Z * string) :=
  match s with
  | String a (String b (String c (String d rest))) =>
      match digit a with
      | None => None
      | Some x3 =>
          match digit b with
          | None => None
          | Some x2 =>
              match digit c with
              | None => None
              | Some x1 =>
                  match digit d with
                  | None => None
                  | Some x0 =>
                      Some ((1000 * x3 + 100 * x2 + 10 * x1 + x0)%Z, rest)
                  end
              end
          end
      end
  | _ => None
  end.

(** The literal ['-'] of the format. *)
Definition parse_dash (s : string) : option string :=
  match s with
  | String c rest => if Ascii.eqb c "-" then Some rest else None
  | EmptyString => None
  end.

(** [s] without its prefix [p], when it starts with [p]. *)
Fixpoint strip_prefix (p s : string) : option string :=
  match p with
  | EmptyString => Some s
  | String a p' =>
      match s with
      | String b s' => if Ascii.eqb a b then strip_prefix p' s' else None
      | EmptyString => None
      end
  end.

(** [%B]: a full month name; the result is the month number, counting the
    names from [k]. *)
Fixpoint parse_month_from (names : list string) (k : Z) (s : string)
  : option (Z * string) :=
  match names with
  | [] => None
  | n :: names' =>
      match strip_prefix n s with
      | Some rest => Some (k, rest)
      | None => parse_month_from names' (k + 1)%Z s
      end
  end.

Definition parse_month (s : string) : option (Z * string) :=
  parse_month_from month_order 1%Z s.

(** [%d] up to the end of the text: one or two digits, from 1 to 31. *)
Definition parse_day (s : string) : option Z :=
  match s with
  | String a EmptyString =>
      match digit a with
      | Some x => if (1 <=? x)%Z then Some x else None
      | None => None
      end
  | String a (String b EmptyString) =>
      match digit a with
      | None => None
      | Some x =>
          match digit b with
          | None => None
          | Some y =>
              let v := (10 * x + y)%Z in
              if ((1 <=? v) && (v <=? 31))%Z then Some v else None
          end
      end
  | _ => None
  end.

Definition is_leap (y : Z) : bool :=
  ((y mod 4 =? 0) && (negb (y mod 100 =? 0) || (y mod 400 =? 0)))%Z.

Definition days_in_month (y m : Z) : Z :=
  match m with
  | 1 => 31 | 2 => if is_leap y then 29 else 28 | 3 => 31 | 4 => 30
  | 5 => 31 | 6 => 30 | 7 => 31 | 8 => 31 | 9 => 30 | 10 => 31
  | 11 => 30 | 12 => 31
  | _ => 0
  end%Z.

(** Days from 0001-01-01 to the first day of year [y]. *)
Definition days_before_year (y : Z) : Z :=
  let p := (y - 1)%Z in (365 * p + p / 4 - p / 100 + p / 400)%Z.

(** Days from the first day of year [y] to the first day of month [m]. *)
Definition days_before_month (y m : Z) : Z :=
  fold_right Z.add 0%Z
    (map (days_in_month y) (map Z.of_nat (seq 1 (Z.to_nat m - 1)))).

(** Day number of a date, 0001-01-01 being day 1. *)
Definition toordinal (t : Timestamp) : Z :=
  (days_before_year (ts_year t) + days_before_month (ts_year t) (ts_month t)
   + ts_day t)%Z.

(** Nanoseconds from 1970-01-01 to midnight of the date. *)
Definition ns_since_epoch (t : Timestamp) : Z :=
  ((toordinal t - 719163) * 86400 * 1000000000)%Z.

(** A timestamp is a signed 64-bit count of nanoseconds, the least value
    being kept for the missing date. *)
Definition representable (t : Timestamp) : bool :=
  ((- 2 ^ 63 <? ns_since_epoch t) && (ns_since_epoch t <? 2 ^ 63))%Z.

(** Parsing one text with the format [%Y-%B-%d], the format of texts built
    as [arrival_date_text] builds them. *)
Definition strptime (s : string) : option Timestamp :=
  match parse_year s with
  | None => None
  | Some (y, s1) =>
      match parse_dash s1 with
      | None => None
      | Some s2 =>
          match parse_month s2 with
          | None => None
          | Some (m, s3) =>
              match parse_dash s3 with
              | None => None
              | Some s4 =>
                  match parse_day s4 with
                  | None => None
                  | Some d =>
                      let t := {| ts_year := y; ts_month := m; ts_day := d |} in
                      if (d <=? days_in_month y m)%Z && representable t
                      then Some t else None
                  end
              end
          end
      end
  end.

(** The [errors=] argument of [pd.to_datetime]. *)
Inductive Errors : Type := errors_raise | errors_coerce.

Definition convert (errors : Errors) (s : string) : result (option Timestamp) :=
  match strptime s with
  | Some t => Ok (Some t)
  | None =>
      match errors with
      | errors_coerce => Ok None
      | errors_raise => Raise "time data doesn't match format"
      end
  end.

(** [pd.to_datetime(col, errors=errors)] on a column of texts. *)
Fixpoint to_datetime (col : list string) (errors : Errors)
  : result (list (option Timestamp)) :=
  match col with
  | [] => Ok []
  | s :: rest =>
      match convert errors s with
      | Raise e => Raise e
      | Ok t =>
          match to_datetime rest errors with
          | Raise e => Raise e
          | Ok ts => Ok (t :: ts)
          end
      end
  end.

(** The derived column [df['arrival_date']]. *)
Definition arrival_date_column (df : DataFrame)
  : result (list (option Timestamp)) :=
  to_datetime (map arrival_date_text df) errors_coerce.

(** The derived date of one row. *)
Definition arrival_date (r : Booking) : option Timestamp :=
  strptime (arrival_date_text r).

(** Number of a month name in the canonical list, counted from [k]. *)
Fixpoint index_from (k : Z) (m : string) (names : list string) : option Z :=
  match names with
  | [] => None
  | n :: names' =>
      if String.eqb m n then Some k else index_from (k + 1)%Z m names'
  end.

Definition month_number (m : string) : option Z := index_from 1%Z m month_order.

(** The calendar date formed by a year, a month name and a day, when there
    is one. *)
Definition calendar_date (y : Z) (m : string) (d : Z) : option Timestamp :=
  match month_number m with
  | None => None
  | Some k =>
      if ((1 <=? y) && (1 <=? d) && (d <=? days_in_month y k))%Z
      then Some {| ts_year := y; ts_month := k; ts_day := d |}
      else None
  end.

(** A booking arriving on the given date. *)
Definition arriving (y : Z) (m : string) (d : Z) : Booking :=
  {| hotel := "City Hotel"; is_canceled := false; lead_time := 10;
     arrival_date_year := y; arrival_date_month := m;
     arrival_date_day_of_month := d;
     stays_in_weekend_nights := 1; stays_in_week_nights := 2;
     adults := 2; children := Some 0%Z; babies := 0;
     country := Some "PRT"; market_segment := Some "Direct";
     distribution_channel := Some "Direct"; adr := inject_Z 100 |}.

(** ** Auxiliary tests on texts *)

(** Every character of [s] is a decimal digit. *)
Fixpoint all_digits (s : string) : bool :=
  match s with
  | EmptyString => true
  | String c s' =>
      match digit c with Some _ => all_digits s' | None => false end
  end.

(** [s] holds no ['-']. *)
Fixpoint no_dash (s : string) : bool :=
  match s with
  | EmptyString => true
  | String c s' => negb (Ascii.eqb c "-") && no_dash s'
  end.

(** The integers [lo], [lo + 1], ..., [lo + n - 1]. *)
Definition Zrange (lo n : Z) : list Z :=
  map (fun i => (lo + Z.of_nat i)%Z) (seq 0 (Z.to_nat n)).

(** [str y] is a text of four digits that reads back as [y]. *)
Definition four_digit_text (y : Z) : bool :=
  match parse_year (str y) with
  | Some (v, EmptyString) => (v =? y)%Z
  | _ => false
  end.

(** [str d] is read back as [d] by the day parser. *)
Definition day_text (d : Z) : bool :=
  match parse_day (str d) with
  | Some v => (v =? d)%Z
  | None => false
  end.

Definition digit_chars : list ascii :=
  ["0"; "1"; "2"; "3"; "4"; "5"; "6"; "7"; "8"; "9"]%char.

(** The number written by the four characters is below 10000. *)
Definition below_10000 (a b c d : ascii) : bool :=
  match NilZero.int_of_string (String a (String b (String c (String d EmptyString)))) with
  | Some i => (Z.of_int i <=? 9999)%Z
  | None => false
  end.

(** [str y] has at most three characters. *)
Definition short_text (y : Z) : bool :=
  (String.length (str y) <=? 3)%nat.

(** ** Totals read off the panels *)

(** Sum of the counts that a reindexed series holds. *)
Definition present_total (s : Series string (option nat)) : nat :=
  fold_right (fun e acc => match snd e with
                           | Some c => (c + acc)%nat
                           | None => acc
                           end) 0%nat s.

(** Eleven countries, the first ten with two bookings each and the last
    with one; the rate of a booking grows with the position of its country. *)
Definition eleven_countries : DataFrame :=
  let codes := ["PRT"; "GBR"; "FRA"; "ESP"; "DEU"; "ITA"; "IRL"; "BEL";
                "BRA"; "NLD"; "USA"] in
  map (fun c => sample_row "City Hotel" false "July" (Some c)
                  (inject_Z (Z.of_nat (String.length c + first_seen String.eqb c codes))))
      (codes ++ firstn 10 codes).

(** ** Reading a page *)

(** The subheaders of a page, in page order. *)
Fixpoint subheaders (pg : list Element) : list string :=
  match pg with
  | [] => []
  | Subheader s :: rest => s :: subheaders rest
  | _ :: rest => subheaders rest
  end.

(** The charts of a page, in page order. *)
Fixpoint charts (pg : list Element) : list Figure :=
  match pg with
  | [] => []
  | Pyplot fig :: rest => fig :: charts rest
  | _ :: rest => charts rest
  end.

(** A backend whose drawing calls always raise. *)
Definition draw_broken (fig : Figure) : result unit := Raise "no display".

(** * Properties *)

Unset Implicit Arguments.

(** ** Columns *)

Section ColumnFacts.
Context {A : Type} {eqb : A -> A -> bool}.
Hypothesis eqb_eq : forall x y, eqb x y = true <-> x = y.

Lemma eqb_refl' x : eqb x x = true.
Proof. now apply eqb_eq. Qed.

Lemma eqb_neq x y : eqb x y = false <-> x <> y.
Proof.
  split.
  - intros E H. apply eqb_eq in H. congruence.
  - intros H. destruct (eqb x y) eqn:E; [|reflexivity].
    apply eqb_eq in E. contradiction.
Qed.

Lemma mem_In x l : mem eqb x l = true <-> In x l.
Proof.
  induction l as [|v l IH]; simpl.
  - split; [discriminate | tauto].
  - rewrite orb_true_iff, IH, eqb_eq. split; intros [H|H]; auto.
Qed.

Lemma mem_not_In x l : mem eqb x l = false <-> ~ In x l.
Proof.
  rewrite <- mem_In. destruct (mem eqb x l); split; congruence.
Qed.

Lemma mem_same_members x l l' :
  (forall y, In y l <-> In y l') -> mem eqb x l = mem eqb x l'.
Proof.
  intros H. destruct (mem eqb x l') eqn:E.
  - apply mem_In, H, mem_In, E.
  - apply mem_not_In. intros Hin. apply H, mem_In in Hin. congruence.
Qed.

Lemma unique_from_In seen col x :
  In x (unique_from eqb seen col) <-> In x col /\ ~ In x seen.
Proof.
  revert seen. induction col as [|y col IH]; intros seen; simpl.
  - tauto.
  - destruct (mem eqb y seen) eqn:E.
    + rewrite IH. apply mem_In in E. split.
      * tauto.
      * intros [[->|H] Hn]; tauto.
    + apply mem_not_In in E. simpl. rewrite IH. simpl. split.
      * intros [->|[H Hn]]; tauto.
      * intros [[->|H] Hn]; [tauto|].
        destruct (eqb y x) eqn:Eyx.
        -- apply eqb_eq in Eyx. tauto.
        -- apply eqb_neq in Eyx. right. tauto.
Qed.

Lemma unique_In col x : In x (unique eqb col) <-> In x col.
Proof. unfold unique. rewrite unique_from_In. simpl. tauto. Qed.

Lemma unique_from_NoDup seen col : NoDup (unique_from eqb seen col).
Proof.
  revert seen. induction col as [|y col IH]; intros seen; simpl.
  - constructor.
  - destruct (mem eqb y seen); [apply IH|].
    constructor; [|apply IH].
    rewrite unique_from_In. simpl. tauto.
Qed.

Lemma unique_NoDup col : NoDup (unique eqb col).
Proof. apply unique_from_NoDup. Qed.

Lemma count_pos_In x col : (0 < count eqb x col)%nat <-> In x col.
Proof.
  induction col as [|y col IH]; simpl.
  - split; [lia | tauto].
  - destruct (eqb x y) eqn:E.
    + apply eqb_eq in E. subst. split; [auto | lia].
    + apply eqb_neq in E. simpl. rewrite IH. split; [auto|].
      intros [H|H]; [congruence | assumption].
Qed.

Lemma count_zero_not_In x col : count eqb x col = 0%nat <-> ~ In x col.
Proof. rewrite <- count_pos_In. lia. Qed.
End ColumnFacts.

Lemma string_eqb_eq (x y : string) : String.eqb x y = true <-> x = y.
Proof. apply String.eqb_eq. Qed.

Lemma bool_eqb_eq (x y : bool) : Bool.eqb x y = true <-> x = y.
Proof. apply Bool.eqb_true_iff. Qed.

(** ** The filtered view *)

Lemma select_rows_isin (df : DataFrame) h m :
  df_filtered df h m = filter (row_selected h m) df.
Proof.
  unfold df_filtered, isin, row_selected.
  induction df as [|r df IH]; simpl; [reflexivity|].
  destruct (mem String.eqb (hotel r) h && mem String.eqb (arrival_date_month r) m);
    now rewrite IH.
Qed.

Lemma filter_all (A : Type) (p : A -> bool) (l : list A) :
  (forall x, In x l -> p x = true) -> filter p l = l.
Proof.
  induction l as [|x l IH]; simpl; intros H; [reflexivity|].
  rewrite (H x) by auto. f_equal. apply IH. auto.
Qed.

Lemma filter_same_length_all (A : Type) (p : A -> bool) (l : list A) :
  filter p l = l -> forall x, In x l -> p x = true.
Proof.
  induction l as [|x l IH]; simpl; intros H y Hy; [tauto|].
  destruct (p x) eqn:E.
  - injection H as H. destruct Hy as [<-|Hy]; auto.
  - exfalso. assert (Hl : (List.length (filter p l) <= List.length l)%nat)
      by apply filter_length_le.
    rewrite H in Hl. simpl in Hl. lia.
Qed.




(** C2: an empty hotel selection gives a view without rows whatever the
    month selection is, and so does an empty month selection whatever the
    hotel selection is. *)
Theorem empty_selection_empty_view (df : DataFrame) (sel : list string) :
  df_filtered df [] sel = [] /\ df_filtered df sel [] = [].
Proof.
  rewrite !select_rows_isin. unfold row_selected. split.
  - induction df as [|r df IH]; simpl; auto.
  - induction df as [|r df IH]; simpl; auto.
    now rewrite andb_false_r.
Qed.



(** ** Sorting a series *)

Section SortFacts.
Context {K V : Type}.
Variable ltb : V -> V -> bool.

Lemma insert_desc_perm (e : K * V) s :
  Permutation (insert_desc ltb e s) (e :: s).
Proof.
  induction s as [|e' s IH]; simpl; [reflexivity|].
  destruct (ltb (snd e) (snd e')); [|reflexivity].
  rewrite IH. apply perm_swap.
Qed.

Lemma sort_values_desc_perm (s : Series K V) :
  Permutation (sort_values_desc ltb s) s.
Proof.
  induction s as [|e s IH]; simpl; [reflexivity|].
  rewrite insert_desc_perm. now constructor.
Qed.

Lemma sort_values_desc_length (s : Series K V) :
  List.length (sort_values_desc ltb s) = List.length s.
Proof. apply Permutation_length, sort_values_desc_perm. Qed.
End SortFacts.

Section GetFacts.
Context {K V : Type} {keqb : K -> K -> bool}.
Hypothesis keqb_eq : forall x y, keqb x y = true <-> x = y.

Lemma get_Some_In (s : Series K V) k v :
  NoDup (map fst s) -> (get keqb k s = Some v <-> In (k, v) s).
Proof.
  induction s as [|[k' v'] s IH]; simpl; intros Hnd.
  - split; [discriminate | tauto].
  - inversion Hnd as [|? ? Hnotin Hnd']; subst.
    destruct (keqb k k') eqn:E.
    + apply keqb_eq in E. subst k'. split.
      * intros [= ->]. now left.
      * intros [[= ->]|Hin]; [reflexivity|].
        exfalso. apply Hnotin. change k with (fst (k, v)). now apply in_map.
    + rewrite (IH Hnd'). split; [auto|].
      intros [[= -> ->]|Hin]; [|assumption].
      rewrite (proj2 (keqb_eq k k) eq_refl) in E. discriminate.
Qed.

Lemma get_perm (s s' : Series K V) k :
  NoDup (map fst s) -> Permutation s s' -> get keqb k s = get keqb k s'.
Proof.
  intros Hnd Hp.
  assert (Hnd' : NoDup (map fst s')).
  { eapply Permutation_NoDup; [|exact Hnd]. now apply Permutation_map. }
  destruct (get keqb k s') as [v|] eqn:E'.
  - apply (get_Some_In _ _ _ Hnd') in E'. apply (get_Some_In _ _ _ Hnd).
    eapply Permutation_in; [symmetry; exact Hp | exact E'].
  - destruct (get keqb k s) as [v|] eqn:E; [|reflexivity].
    apply (get_Some_In _ _ _ Hnd) in E.
    eapply Permutation_in in E; [|exact Hp].
    apply (get_Some_In _ _ _ Hnd') in E. congruence.
Qed.

Lemma get_tally (f : K -> V) (ks : list K) k :
  get keqb k (map (fun k => (k, f k)) ks)
  = if mem keqb k ks then Some (f k) else None.
Proof.
  induction ks as [|k' ks IH]; simpl; [reflexivity|].
  destruct (keqb k k') eqn:E; simpl; [|exact IH].
  apply keqb_eq in E. now subst.
Qed.
End GetFacts.

Section ValueCountsFacts.
Context {K : Type} {keqb : K -> K -> bool}.
Hypothesis keqb_eq : forall x y, keqb x y = true <-> x = y.

Lemma tally_keys (col : list K) :
  map fst (map (fun k => (k, count keqb k col)) (unique keqb col))
  = unique keqb col.
Proof. rewrite map_map. simpl. apply map_id. Qed.

Lemma value_counts_keys_NoDup (col : list K) :
  NoDup (map fst (value_counts keqb col)).
Proof.
  eapply Permutation_NoDup.
  - apply Permutation_map. symmetry. apply sort_values_desc_perm.
  - rewrite tally_keys. now apply unique_NoDup.
Qed.

Lemma get_value_counts (col : list K) k :
  get keqb k (value_counts keqb col)
  = if (count keqb k col =? 0)%nat then None else Some (count keqb k col).
Proof.
  unfold value_counts.
  rewrite <- (get_perm keqb_eq _ _ k
                (eq_ind_r (@NoDup K) (unique_NoDup keqb_eq col) (tally_keys col))
                (Permutation_sym (sort_values_desc_perm Nat.ltb _))).
  rewrite (get_tally keqb_eq).
  destruct (count keqb k col =? 0)%nat eqn:E.
  - apply Nat.eqb_eq in E. apply (count_zero_not_In keqb_eq) in E.
    replace (mem keqb k (unique keqb col)) with false; [reflexivity|].
    symmetry. apply (mem_not_In keqb_eq). now rewrite (unique_In keqb_eq).
  - apply Nat.eqb_neq in E.
    replace (mem keqb k (unique keqb col)) with true; [reflexivity|].
    symmetry. apply (mem_In keqb_eq), (unique_In keqb_eq).
    apply (count_pos_In keqb_eq). lia.
Qed.
End ValueCountsFacts.

(** ** Monthly trend *)

Lemma df_filtered_same_members df h m m' :
  (forall x, In x m <-> In x m') -> df_filtered df h m = df_filtered df h m'.
Proof.
  intros H. rewrite !select_rows_isin. apply filter_ext. intros r.
  unfold row_selected. now rewrite (mem_same_members string_eqb_eq _ m m').
Qed.

(** C7: the monthly trend lists the twelve canonical months in calendar
    order, each with its booking count in the view or with a missing value
    when the view has no booking in that month; the order in which the
    months were selected does not change it. *)
Theorem monthly_trend_canonical (df : DataFrame) (hotel_type sel sel' : list string) :
  let view := df_filtered df hotel_type sel in
  monthly view
  = map (fun m =>
           (m, let c := count String.eqb m (map arrival_date_month view) in
               if (c =? 0)%nat then None else Some c))
        month_order
  /\ map fst (monthly view) = month_order
  /\ (Permutation sel sel' ->
      monthly (df_filtered df hotel_type sel') = monthly view).
Proof.
  intros view.
  assert (E : forall v, monthly v
    = map (fun m =>
           (m, let c := count String.eqb m (map arrival_date_month v) in
               if (c =? 0)%nat then None else Some c))
        month_order).
  { intros v. unfold monthly, reindex. apply map_ext. intros m.
    now rewrite (get_value_counts string_eqb_eq). }
  split; [apply E|]. split.
  - rewrite E, map_map. reflexivity.
  - intros Hp. subst view. f_equal. apply df_filtered_same_members.
    intros x. split; apply Permutation_in; [symmetry|]; exact Hp.
Qed.

Lemma monthly_trend_canonical_witness :
  monthly (df_filtered table_with_odd_month ["City Hotel"] ["March"; "July"])
  = monthly (df_filtered table_with_odd_month ["City Hotel"] ["July"; "March"]).
Proof.
  apply (proj2 (proj2 (monthly_trend_canonical table_with_odd_month
                         ["City Hotel"] ["July"; "March"] ["March"; "July"]))).
  apply perm_swap.
Defined.

(** ** Percentages *)

Lemma sum_perm (l l' : list nat) :
  Permutation l l' -> fold_right Nat.add 0%nat l = fold_right Nat.add 0%nat l'.
Proof. induction 1; simpl; lia. Qed.

Section CountSum.
Context {K : Type} {keqb : K -> K -> bool}.
Hypothesis keqb_eq : forall x y, keqb x y = true <-> x = y.

Lemma unseen_split y seen (col : list K) :
  ~ In y seen ->
  List.length (filter (fun x => negb (mem keqb x seen)) col)
  = (count keqb y col
     + List.length (filter (fun x => negb (mem keqb x (y :: seen))) col))%nat.
Proof.
  intros Hy. induction col as [|z col IH]; [reflexivity|].
  cbn [filter count]. change (mem keqb z (y :: seen))
    with (keqb z y || mem keqb z seen).
  destruct (keqb y z) eqn:E.
  - apply keqb_eq in E. subst z.
    rewrite (proj2 (keqb_eq y y) eq_refl).
    rewrite (proj2 (mem_not_In keqb_eq y seen) Hy).
    cbn [negb orb List.length]. rewrite IH. lia.
  - assert (E' : keqb z y = false).
    { apply (eqb_neq keqb_eq). apply (eqb_neq keqb_eq) in E. congruence. }
    rewrite E'. cbn [orb]. destruct (mem keqb z seen);
      cbn [negb List.length]; rewrite IH; lia.
Qed.

Lemma sum_counts_unique_from seen (col : list K) :
  fold_right Nat.add 0%nat
    (map (fun k => count keqb k col) (unique_from keqb seen col))
  = List.length (filter (fun x => negb (mem keqb x seen)) col).
Proof.
  revert seen. induction col as [|y col IH]; intros seen; simpl;
    [reflexivity|].
  destruct (mem keqb y seen) eqn:E; simpl.
  - rewrite <- IH. f_equal. apply map_ext_in. intros k Hk.
    apply (unique_from_In keqb_eq) in Hk. destruct Hk as [_ Hk].
    destruct (keqb k y) eqn:Eky; [|reflexivity].
    apply keqb_eq in Eky. subst. apply (mem_In keqb_eq) in E. contradiction.
  - apply (mem_not_In keqb_eq) in E.
    rewrite (proj2 (keqb_eq y y) eq_refl).
    rewrite (unseen_split y seen col E), <- IH. simpl. f_equal. f_equal.
    f_equal. apply map_ext_in. intros k Hk.
    apply (unique_from_In keqb_eq) in Hk. destruct Hk as [_ Hk].
    destruct (keqb k y) eqn:Eky; [|reflexivity].
    apply keqb_eq in Eky. subst. exfalso. apply Hk. now left.
Qed.

Lemma counts_sum_value_counts (col : list K) :
  counts_sum (value_counts keqb col) = List.length col.
Proof.
  unfold counts_sum, value_counts.
  rewrite (sum_perm _ _ (Permutation_map snd (sort_values_desc_perm Nat.ltb _))).
  rewrite map_map. simpl. unfold unique.
  rewrite sum_counts_unique_from. simpl.
  f_equal. apply filter_all. reflexivity.
Qed.

Lemma value_counts_length (col : list K) :
  List.length (value_counts keqb col) = List.length (unique keqb col).
Proof.
  unfold value_counts. now rewrite sort_values_desc_length, length_map.
Qed.
End CountSum.

Local Open Scope Q_scope.

Lemma Qsum_scaled (K : Type) (s : Series K nat) (N c : Q) :
  Qsum (map snd (mul c (map (fun e => (fst e, inject_Z (Z.of_nat (snd e)) / N)) s)))
  == inject_Z (Z.of_nat (counts_sum s)) / N * c.
Proof.
  unfold mul, counts_sum. rewrite !map_map. simpl.
  induction s as [|e s IH]; simpl.
  - unfold Qdiv. ring.
  - rewrite IH, Nat2Z.inj_add, inject_Z_plus. unfold Qdiv. ring.
Qed.

Lemma percentages_exact (K : Type) (keqb : K -> K -> bool)
    (keqb_eq : forall x y, keqb x y = true <-> x = y) (col : list K) :
  col <> [] ->
  Qsum (map snd (mul (inject_Z 100) (value_counts_normalize keqb col)))
  == inject_Z 100.
Proof.
  intros Hne. unfold value_counts_normalize. rewrite Qsum_scaled.
  rewrite (counts_sum_value_counts keqb_eq).
  assert (Hpos : 0 < inject_Z (Z.of_nat (List.length col))).
  { destruct col; [congruence|]. simpl List.length.
    rewrite <- (Zlt_Qlt 0). lia. }
  field. intros H. rewrite H in Hpos. now apply Qlt_irrefl in Hpos.
Qed.

Lemma rint_near (x : Q) : Qabs (inject_Z (rint x) - x) <= 1 # 2.
Proof.
  unfold rint. pose proof (Qfloor_le x) as Hlo. pose proof (Qlt_floor x) as Hhi.
  rewrite inject_Z_plus in Hhi. change (inject_Z 1) with 1 in Hhi.
  apply Qabs_Qle_condition.
  destruct (x - inject_Z (Qfloor x) ?= 1 # 2) eqn:E.
  - apply Qeq_alt in E. destruct (Z.even (Qfloor x));
      [|rewrite inject_Z_plus; change (inject_Z 1) with 1]; split; lra.
  - apply Qlt_alt in E. split; lra.
  - apply Qgt_alt in E. rewrite inject_Z_plus. change (inject_Z 1) with 1.
    split; lra.
Qed.

Lemma round1_near (x : Q) : Qabs (round1 x - x) <= 1 # 20.
Proof.
  unfold round1. pose proof (rint_near (x * inject_Z 10)) as H.
  apply Qabs_Qle_condition in H. apply Qabs_Qle_condition.
  change (inject_Z 10) with (10 # 1) in *.
  set (r := inject_Z (rint (x * (10 # 1)))) in *.
  unfold Qdiv. change (/ (10 # 1)) with (1 # 10).
  split; lra.
Qed.

Lemma Qsum_round_near (K : Type) (s : Series K Q) :
  Qabs (Qsum (map snd (round s)) - Qsum (map snd s))
  <= (1 # 20) * inject_Z (Z.of_nat (List.length (round s))).
Proof.
  unfold round. rewrite length_map, map_map. cbn [fst snd].
  induction s as [|e s IH].
  - cbv. discriminate.
  - cbn [map Qsum fold_right List.length]. fold (Qsum (map snd s)).
    fold (Qsum (map (fun x : K * Q => round1 (snd x)) s)).
    rewrite Nat2Z.inj_succ, <- Z.add_1_r, inject_Z_plus.
    pose proof (round1_near (snd e)) as H.
    apply Qabs_Qle_condition in H. apply Qabs_Qle_condition in IH.
    apply Qabs_Qle_condition.
    change (inject_Z 1) with 1. split; lra.
Qed.

Lemma shares_near_100 (col : list string) :
  col <> [] ->
  let s := round (mul (inject_Z 100) (value_counts_normalize String.eqb col)) in
  Qabs (Qsum (map snd s) - inject_Z 100)
  <= (1 # 20) * inject_Z (Z.of_nat (List.length s)).
Proof.
  intros Hne s. subst s.
  pose proof (Qsum_round_near _ (mul (inject_Z 100)
                (value_counts_normalize String.eqb col))) as H.
  rewrite (percentages_exact _ _ string_eqb_eq col Hne) in H. exact H.
Qed.

Lemma dropna_nonempty (A : Type) (col : list (option A)) :
  (exists x, In (Some x) col) -> dropna col <> [].
Proof.
  intros [x Hx]. induction col as [|[y|] col IH]; simpl in *.
  - contradiction.
  - discriminate.
  - destruct Hx as [Hx|Hx]; [discriminate | auto].
Qed.

Lemma NoDup_bool_length (l : list bool) : NoDup l -> (List.length l <= 2)%nat.
Proof.
  intros H.
  assert (Hincl : incl l [true; false]).
  { intros [|] _; simpl; auto. }
  apply (NoDup_incl_length H Hincl).
Qed.




Local Close Scope Q_scope.

(** ** Sortedness of sorted series *)

Lemma StronglySorted_impl_In (A : Type) (R R' : A -> A -> Prop) (l : list A) :
  (forall a b, In a l -> In b l -> R a b -> R' a b) ->
  StronglySorted R l -> StronglySorted R' l.
Proof.
  intros Himp Hs. induction Hs as [|a l Hs IH Hall].
  - constructor.
  - constructor.
    + apply IH. intros x y Hx Hy. apply Himp; now right.
    + rewrite Forall_forall in *. intros x Hx.
      apply Himp; [now left | now right | now apply Hall].
Qed.

Lemma StronglySorted_map (A B : Type) (f : A -> B) (R : B -> B -> Prop)
    (l : list A) :
  StronglySorted (fun a b => R (f a) (f b)) l -> StronglySorted R (map f l).
Proof.
  induction 1 as [|a l Hs IH Hall]; simpl; constructor; [assumption|].
  rewrite Forall_map. exact Hall.
Qed.

Lemma firstn_incl (A : Type) (n : nat) (l : list A) : incl (firstn n l) l.
Proof.
  revert n. induction l as [|a l IH]; intros [|n]; simpl; intros x Hx;
    try contradiction.
  destruct Hx as [<-|Hx]; [now left | right; now apply (IH n)].
Qed.

Lemma StronglySorted_firstn (A : Type) (R : A -> A -> Prop) (n : nat)
    (l : list A) :
  StronglySorted R l -> StronglySorted R (firstn n l).
Proof.
  intros Hs. revert n. induction Hs as [|a l Hs IH Hall]; intros [|n]; simpl;
    try constructor.
  - apply IH.
  - rewrite Forall_forall in *. intros x Hx. apply Hall.
    revert Hx. apply firstn_incl.
Qed.

Section StableSort.
Context {K V : Type}.
Variable ltb : V -> V -> bool.
Variable before : K -> K -> Prop.
Hypothesis ltb_asym : forall a b, ltb a b = true -> ltb b a = false.
Hypothesis ltb_cotrans :
  forall a b c, ltb a c = true -> ltb a b = true \/ ltb b c = true.

Lemma insert_desc_sorted (e : K * V) (s : Series K V) :
  Forall (fun x => before (fst e) (fst x)) s ->
  sorted_desc_by ltb before s ->
  sorted_desc_by ltb before (insert_desc ltb e s).
Proof.
  unfold sorted_desc_by. intros Hb Hs. induction Hs as [|e' s Hs IH Hall].
  - simpl. constructor; constructor.
  - inversion Hb as [|? ? Hbe Hbs]; subst. simpl.
    destruct (ltb (snd e) (snd e')) eqn:E.
    + constructor; [now apply IH|].
      eapply Permutation_Forall.
      * symmetry. apply insert_desc_perm.
      * constructor; [|exact Hall]. split; [now apply ltb_asym | now left].
    + constructor; [now constructor|].
      constructor; [split; [exact E | now right]|].
      rewrite Forall_forall in *. intros x Hx. split; [|right; now apply Hbs].
      destruct (ltb (snd e) (snd x)) eqn:Ex; [|reflexivity].
      destruct (ltb_cotrans _ (snd e') _ Ex) as [H|H]; [congruence|].
      destruct (Hall x Hx) as [H' _]. congruence.
Qed.

(** A series listed in [before] order is, once sorted, descending with
    ties in [before] order. *)
Lemma sort_values_desc_sorted (s : Series K V) :
  StronglySorted (fun a b => before (fst a) (fst b)) s ->
  sorted_desc_by ltb before (sort_values_desc ltb s).
Proof.
  induction 1 as [|e s Hs IH Hall]; simpl.
  - constructor.
  - apply insert_desc_sorted; [|exact IH].
    eapply Permutation_Forall; [|exact Hall].
    symmetry. apply sort_values_desc_perm.
Qed.
End StableSort.

(** ** First-appearance order of [unique] *)

Section FirstSeen.
Context {K : Type} {keqb : K -> K -> bool}.
Hypothesis keqb_eq : forall x y, keqb x y = true <-> x = y.

Lemma unique_from_first_seen seen (col : list K) :
  StronglySorted
    (fun k k' => (first_seen keqb k col < first_seen keqb k' col)%nat)
    (unique_from keqb seen col).
Proof.
  revert seen. induction col as [|y col IH]; intros seen; simpl.
  - constructor.
  - assert (Hshift : forall seen',
      (mem keqb y seen' = true) ->
      StronglySorted
        (fun k k' =>
           ((if keqb k y then 0 else S (first_seen keqb k col))
            < (if keqb k' y then 0 else S (first_seen keqb k' col)))%nat)
        (unique_from keqb seen' col)).
    { intros seen' Hy. apply StronglySorted_impl_In with (2 := IH seen').
      intros a b Ha Hb Hab.
      apply (unique_from_In keqb_eq) in Ha, Hb.
      apply (mem_In keqb_eq) in Hy.
      assert (Ea : keqb a y = false).
      { apply (eqb_neq keqb_eq). intros ->. tauto. }
      assert (Eb : keqb b y = false).
      { apply (eqb_neq keqb_eq). intros ->. tauto. }
      rewrite Ea, Eb. lia. }
    destruct (mem keqb y seen) eqn:E.
    + now apply Hshift.
    + constructor.
      * apply Hshift. simpl. now rewrite (proj2 (keqb_eq y y) eq_refl).
      * rewrite Forall_forall. intros k Hk.
        apply (unique_from_In keqb_eq) in Hk. destruct Hk as [_ Hk].
        rewrite (proj2 (keqb_eq y y) eq_refl).
        assert (Ek : keqb k y = false).
        { apply (eqb_neq keqb_eq). intros ->. apply Hk. now left. }
        rewrite Ek. lia.
Qed.
End FirstSeen.

(** ** Group keys in ascending order *)

Lemma ascii_compare_lt_trans (a b c : ascii) :
  Ascii.compare a b = Lt -> Ascii.compare b c = Lt -> Ascii.compare a c = Lt.
Proof.
  unfold Ascii.compare. rewrite !N.compare_lt_iff. apply N.lt_trans.
Qed.

Lemma ascii_compare_refl (c : ascii) : Ascii.compare c c = Eq.
Proof. unfold Ascii.compare. apply N.compare_refl. Qed.

Lemma string_compare_lt_trans (s1 s2 s3 : string) :
  String.compare s1 s2 = Lt -> String.compare s2 s3 = Lt ->
  String.compare s1 s3 = Lt.
Proof.
  revert s2 s3. induction s1 as [|a s1 IH]; intros [|b s2] [|c s3]; simpl;
    try congruence.
  destruct (Ascii.compare a b) eqn:Eab; try discriminate;
    destruct (Ascii.compare b c) eqn:Ebc; try discriminate; intros H1 H2.
  - apply Ascii.compare_eq_iff in Eab, Ebc. subst.
    rewrite ascii_compare_refl. now apply (IH s2).
  - apply Ascii.compare_eq_iff in Eab. subst. now rewrite Ebc.
  - apply Ascii.compare_eq_iff in Ebc. subst. now rewrite Eab.
  - now rewrite (ascii_compare_lt_trans _ _ _ Eab Ebc).
Qed.

Lemma string_ltb_trans (s1 s2 s3 : string) :
  String.ltb s1 s2 = true -> String.ltb s2 s3 = true -> String.ltb s1 s3 = true.
Proof.
  unfold String.ltb.
  destruct (String.compare s1 s2) eqn:E1; try discriminate.
  destruct (String.compare s2 s3) eqn:E2; try discriminate.
  now rewrite (string_compare_lt_trans _ _ _ E1 E2).
Qed.

Lemma string_ltb_connected (s1 s2 : string) :
  String.ltb s1 s2 = false -> s1 <> s2 -> String.ltb s2 s1 = true.
Proof.
  unfold String.ltb. intros H Hne. rewrite String.compare_antisym.
  destruct (String.compare s1 s2) eqn:E; try discriminate; [|reflexivity].
  apply String.compare_eq_iff in E. contradiction.
Qed.

Lemma insert_key_perm k ks : Permutation (insert_key k ks) (k :: ks).
Proof.
  induction ks as [|k' ks IH]; simpl; [reflexivity|].
  destruct (String.ltb k' k); [|reflexivity].
  rewrite IH. apply perm_swap.
Qed.

Lemma sort_keys_perm ks : Permutation (sort_keys ks) ks.
Proof.
  induction ks as [|k ks IH]; simpl; [reflexivity|].
  rewrite insert_key_perm. now constructor.
Qed.

Lemma insert_key_sorted k ks :
  ~ In k ks ->
  StronglySorted (fun a b => String.ltb a b = true) ks ->
  StronglySorted (fun a b => String.ltb a b = true) (insert_key k ks).
Proof.
  intros Hk Hs. induction Hs as [|k' ks Hs IH Hall]; simpl.
  - constructor; constructor.
  - destruct (String.ltb k' k) eqn:E.
    + constructor; [apply IH; intros H; apply Hk; now right|].
      eapply Permutation_Forall; [symmetry; apply insert_key_perm|].
      now constructor.
    + assert (Hlt : String.ltb k k' = true).
      { apply string_ltb_connected; [exact E|]. intros ->. apply Hk. now left. }
      constructor; [now constructor|]. constructor; [exact Hlt|].
      rewrite Forall_forall in *. intros x Hx.
      apply (string_ltb_trans _ k'); auto.
Qed.

Lemma sort_keys_sorted ks :
  NoDup ks -> StronglySorted (fun a b => String.ltb a b = true) (sort_keys ks).
Proof.
  induction 1 as [|k ks Hk Hnd IH]; simpl.
  - constructor.
  - apply insert_key_sorted; [|exact IH].
    intros H. apply Hk. eapply Permutation_in; [apply sort_keys_perm | exact H].
Qed.

(** ** Order facts on counts and rates *)

Lemma nat_ltb_asym (a b : nat) : (a <? b)%nat = true -> (b <? a)%nat = false.
Proof. rewrite Nat.ltb_lt, Nat.ltb_ge. lia. Qed.

Lemma nat_ltb_cotrans (a b c : nat) :
  (a <? c)%nat = true -> (a <? b)%nat = true \/ (b <? c)%nat = true.
Proof. rewrite !Nat.ltb_lt. lia. Qed.

Lemma Qltb_lt (a b : Q) : Qltb a b = true <-> (a < b)%Q.
Proof.
  unfold Qltb. rewrite negb_true_iff. split.
  - intros H. apply Qnot_le_lt. intros Hle.
    apply Qle_bool_iff in Hle. congruence.
  - intros H. destruct (Qle_bool b a) eqn:E; [|reflexivity].
    apply Qle_bool_iff in E. exfalso. now apply (Qlt_not_le a b).
Qed.

Lemma Qltb_asym (a b : Q) : Qltb a b = true -> Qltb b a = false.
Proof.
  intros H. destruct (Qltb b a) eqn:E; [|reflexivity].
  apply Qltb_lt in H, E. exfalso. apply (Qlt_irrefl a).
  now apply (Qlt_trans a b a).
Qed.

Lemma Qltb_cotrans (a b c : Q) :
  Qltb a c = true -> Qltb a b = true \/ Qltb b c = true.
Proof.
  rewrite !Qltb_lt. intros H. destruct (Qlt_le_dec a b) as [Hab|Hba]; [now left|].
  right. now apply (Qle_lt_trans b a c).
Qed.

(** ** Top-ten lists *)

Lemma value_counts_sorted (col : list string) :
  sorted_desc_by Nat.ltb (first_encountered col) (value_counts String.eqb col).
Proof.
  apply (sort_values_desc_sorted Nat.ltb (first_encountered col)
           nat_ltb_asym nat_ltb_cotrans).
  apply StronglySorted_map with (f := fun k => (k, count String.eqb k col))
    (R := fun a b => first_encountered col (fst a) (fst b)).
  apply (unique_from_first_seen string_eqb_eq).
Qed.

Lemma value_counts_entries (col : list string) k c :
  In (k, c) (value_counts String.eqb col) ->
  c = count String.eqb k col /\ In k col.
Proof.
  intros H. eapply Permutation_in in H; [|apply sort_values_desc_perm].
  apply in_map_iff in H. destruct H as [k' [[= <- <-] Hk]].
  split; [reflexivity|]. exact (proj1 (unique_In string_eqb_eq col k') Hk).
Qed.

Lemma adr_by_country_sorted (view : DataFrame) :
  StronglySorted (fun a b : string * Q => String.ltb (fst a) (fst b) = true)
    (adr_by_country view).
Proof.
  unfold adr_by_country.
  apply StronglySorted_map with (f := fun c => (c, mean (adr_of c view)))
    (R := fun a b : string * Q => String.ltb (fst a) (fst b) = true).
  apply sort_keys_sorted, (unique_NoDup string_eqb_eq).
Qed.



(** ** The cancellation pie *)

Lemma unique_from_const (c : bool) seen (col : list bool) :
  Forall (eq c) col ->
  unique_from Bool.eqb seen col
  = if mem Bool.eqb c seen then []
    else match col with [] => [] | _ :: _ => [c] end.
Proof.
  intros Hall. revert seen. induction Hall as [|y col <- Hall IH]; intros seen.
  - simpl. now destruct (mem Bool.eqb c seen).
  - simpl. destruct (mem Bool.eqb c seen) eqn:E.
    + now rewrite IH, E.
    + rewrite IH. simpl. now rewrite Bool.eqb_reflx.
Qed.

Lemma count_const (c : bool) (col : list bool) :
  Forall (eq c) col -> count Bool.eqb c col = List.length col.
Proof.
  induction 1 as [|y col <- Hall IH]; simpl; [reflexivity|].
  now rewrite Bool.eqb_reflx, IH.
Qed.

Lemma cancel_rate_single (view : DataFrame) (c : bool) :
  view <> [] -> (forall r, In r view -> is_canceled r = c) ->
  cancel_rate view
  = [(c, (inject_Z (Z.of_nat (List.length view))
          / inject_Z (Z.of_nat (List.length view)) * inject_Z 100)%Q)].
Proof.
  intros Hne Hall.
  assert (Hcol : Forall (eq c) (map is_canceled view)).
  { rewrite Forall_map, Forall_forall. intros r Hr. symmetry. auto. }
  unfold cancel_rate, value_counts_normalize. cbv zeta.
  rewrite (counts_sum_value_counts bool_eqb_eq), length_map.
  assert (Hu : unique Bool.eqb (map is_canceled view) = [c]).
  { unfold unique. rewrite (unique_from_const c [] _ Hcol).
    destruct view; [congruence | reflexivity]. }
  unfold value_counts. rewrite Hu.
  cbn [map sort_values_desc insert_desc mul fst snd].
  now rewrite (count_const c _ Hcol), length_map.
Qed.

(** C10: in a non-empty view whose bookings all share one cancellation
    status the rate is a single value, 100 per cent; the pie call receives
    one value for two labels and raises, so the panel takes its exception
    branch: the subheader stays, no chart follows, and one record with the
    panel's prefix is logged at error severity. *)
Theorem single_status_pie_raises (draw : Figure -> result unit)
    (view : DataFrame) (c : bool) :
  view <> [] -> (forall r, In r view -> is_canceled r = c) ->
  (exists p, cancel_rate view = [(c, p)] /\ (p == inject_Z 100)%Q)
  /\ snd (body panel_1 (fresh view)) = Raise "'label' must be of length 'x'"
  /\ forall st, rows (frame st) = view ->
       page (try_panel draw panel_1 st)
       = page st ++ [Subheader (header panel_1)]
       /\ log (try_panel draw panel_1 st)
          = log st ++ [{| levelname := ERROR;
                          message := "Cancellation chart error: 'label' must be of length 'x'" |}].
Proof.
  intros Hne Hall. pose proof (cancel_rate_single view c Hne Hall) as Hrate.
  split; [|split].
  - eexists. split; [exact Hrate|].
    assert (Hpos : (0 < inject_Z (Z.of_nat (List.length view)))%Q).
    { destruct view; [congruence|]. simpl List.length.
      rewrite <- (Zlt_Qlt 0). lia. }
    field. intros H. rewrite H in Hpos. now apply Qlt_irrefl in Hpos.
  - simpl. now rewrite Hrate.
  - intros st Hst. unfold try_panel. simpl. rewrite Hst, Hrate. simpl. auto.
Qed.

Lemma single_status_pie_raises_witness :
  snd (body panel_1 (fresh one_canceled)) = Raise "'label' must be of length 'x'".
Proof.
  apply (single_status_pie_raises draw_ok one_canceled true).
  - discriminate.
  - intros r [<-|[]]. reflexivity.
Defined.

Lemma unique_bool_both (col : list bool) :
  In true col -> In false col ->
  unique Bool.eqb col = [true; false] \/ unique Bool.eqb col = [false; true].
Proof.
  intros Ht Hf.
  apply (unique_In bool_eqb_eq) in Ht, Hf.
  pose proof (unique_NoDup bool_eqb_eq col) as Hnd.
  pose proof (NoDup_bool_length _ Hnd) as Hlen.
  destruct (unique Bool.eqb col) as [|a [|b [|x u]]]; simpl in *.
  - contradiction.
  - destruct Ht as [->|[]], Hf as [Hf|[]]. discriminate.
  - inversion Hnd as [|? ? Hnotin _]; subst. simpl in Hnotin.
    destruct a, b; auto; tauto.
  - lia.
Qed.

Lemma value_counts_canceled_lead (col : list bool) :
  (0 < count Bool.eqb false col)%nat ->
  (count Bool.eqb false col < count Bool.eqb true col)%nat ->
  value_counts Bool.eqb col
  = [(true, count Bool.eqb true col); (false, count Bool.eqb false col)].
Proof.
  intros Hpos Hlt.
  assert (Ht : In true col) by (apply (count_pos_In bool_eqb_eq); lia).
  assert (Hf : In false col) by (apply (count_pos_In bool_eqb_eq); lia).
  unfold value_counts.
  destruct (unique_bool_both col Ht Hf) as [-> | ->]; simpl.
  - now rewrite (proj2 (Nat.ltb_ge _ _) (Nat.lt_le_incl _ _ Hlt)).
  - now rewrite (proj2 (Nat.ltb_lt _ _) Hlt).
Qed.

(** C9 (as amended): the pie labels are fixed by position and the
    percentages come in descending frequency; when the view holds at least
    one booking that was not canceled and strictly more canceled ones, the
    wedge labelled 'Not Canceled' carries the canceled percentage and the
    wedge labelled 'Canceled' the other one. *)
Theorem swapped_pie_labels (view : DataFrame) :
  let col := map is_canceled view in
  (0 < count Bool.eqb false col)%nat ->
  (count Bool.eqb false col < count Bool.eqb true col)%nat ->
  cancel_rate view
  = [(true, proportion true view); (false, proportion false view)]
  /\ snd (body panel_1 (fresh view))
     = Ok (Pie [("Not Canceled", proportion true view);
                ("Canceled", proportion false view)]).
Proof.
  intros col Hpos Hlt.
  assert (Hrate : cancel_rate view
          = [(true, proportion true view); (false, proportion false view)]).
  { unfold cancel_rate, value_counts_normalize. cbv zeta.
    rewrite (counts_sum_value_counts bool_eqb_eq), length_map.
    fold col. rewrite (value_counts_canceled_lead col Hpos Hlt).
    reflexivity. }
  split; [exact Hrate|]. simpl. now rewrite Hrate.
Qed.

Lemma swapped_pie_labels_witness :
  let view := one_canceled ++ one_canceled
              ++ [sample_row "City Hotel" false "July" (Some "PRT") (inject_Z 100)] in
  snd (body panel_1 (fresh view))
  = Ok (Pie [("Not Canceled", proportion true view);
             ("Canceled", proportion false view)]).
Proof.
  intros view. apply (swapped_pie_labels view); simpl; lia.
Defined.

(** C9, as stated, fails when every booking of the view is canceled: the
    canceled bookings outnumber the others, yet the pie has no wedge. *)
Lemma all_canceled_no_wedges :
  ~ (forall view,
       (count Bool.eqb false (map is_canceled view)
        < count Bool.eqb true (map is_canceled view))%nat ->
       snd (body panel_1 (fresh view))
       = Ok (Pie [("Not Canceled", proportion true view);
                  ("Canceled", proportion false view)])).
Proof.
  intros H. specialize (H one_canceled).
  assert (Hlt : (count Bool.eqb false (map is_canceled one_canceled)
                 < count Bool.eqb true (map is_canceled one_canceled))%nat)
    by (simpl; lia).
  apply H in Hlt. vm_compute in Hlt. discriminate.
Qed.

(** ** Panels fail on their own *)

Lemma reading_reads_rows (h pre : string) (stat : DataFrame -> result Figure) :
  reads_rows {| header := h; prefix := pre; body := reading stat |}.
Proof. intros f. split; reflexivity. Qed.

Lemma panels_read_rows : Forall reads_rows panels.
Proof.
  unfold panels.
  repeat (constructor; [first [apply reading_reads_rows
                              | intros f; split; reflexivity]|]).
  constructor.
Qed.

Section Isolation.
Variable draw : Figure -> result unit.

Lemma try_panel_alone (p : Panel) (st : Script) :
  reads_rows p ->
  rows (frame (try_panel draw p st)) = rows (frame st)
  /\ page (try_panel draw p st)
     = page st ++ panel_elements p (outcome draw p (rows (frame st)))
  /\ log (try_panel draw p st)
     = log st ++ panel_log p (outcome draw p (rows (frame st))).
Proof.
  intros Hp. destruct (Hp (frame st)) as [Hrows Hstat].
  unfold try_panel, outcome. rewrite <- Hstat.
  destruct (body p (frame st)) as [f [fig|e]]; simpl in *.
  - destruct (draw fig) as [[]|e]; simpl.
    + rewrite <- app_assoc, app_nil_r. auto.
    + auto.
  - auto.
Qed.

Lemma run_panels_alone (ps : list Panel) (st : Script) :
  Forall reads_rows ps ->
  rows (frame (run_panels draw ps st)) = rows (frame st)
  /\ page (run_panels draw ps st)
     = page st
       ++ flat_map (fun p => panel_elements p (outcome draw p (rows (frame st)))) ps
  /\ log (run_panels draw ps st)
     = log st
       ++ flat_map (fun p => panel_log p (outcome draw p (rows (frame st)))) ps.
Proof.
  intros Hps. revert st. induction Hps as [|p ps Hp Hps IH]; intros st.
  - simpl. now rewrite !app_nil_r.
  - cbn [run_panels fold_left]. fold (run_panels draw ps (try_panel draw p st)).
    destruct (try_panel_alone p st Hp) as [Hr [Hpg Hlg]].
    destruct (IH (try_panel draw p st)) as [Hr' [Hpg' Hlg']].
    rewrite Hr', Hpg', Hlg', Hr, Hpg, Hlg. cbn [flat_map].
    now rewrite <- !app_assoc.
Qed.

Lemma run_with_alone (ps : list Panel) (view : DataFrame) :
  Forall reads_rows ps ->
  page (run_with draw ps view)
  = [Title "🏨 Hotel Booking Dashboard"]
    ++ flat_map (fun p => panel_elements p (outcome draw p view)) ps
    ++ [Markdown "---";
        Markdown "📊 Built with Streamlit | Created by Pravi Jain"]
  /\ log (run_with draw ps view)
     = flat_map (fun p => panel_log p (outcome draw p view)) ps.
Proof.
  intros Hps. unfold run_with. cbn [page log].
  destruct (run_panels_alone ps
              {| frame := fresh view;
                 page := [Title "🏨 Hotel Booking Dashboard"];
                 log := [] |} Hps) as [_ [Hpg Hlg]].
  rewrite Hpg, Hlg. cbn [frame rows fresh page log].
  now rewrite <- app_assoc.
Qed.
End Isolation.

(** C8 (as amended): whatever the drawing calls do, every panel contributes
    to the page and to the log what it does when run alone on the filtered
    view.  A panel whose statistic or drawing raises leaves its subheader,
    emitted before the failure, and no chart, and logs one record at error
    severity that starts with its own prefix; the page and the log are
    otherwise those of the script without that panel. *)
Theorem panel_failures_isolated (draw : Figure -> result unit)
    (view : DataFrame) :
  (page (run_dashboard draw view)
   = [Title "🏨 Hotel Booking Dashboard"]
     ++ flat_map (fun p => panel_elements p (outcome draw p view)) panels
     ++ [Markdown "---";
         Markdown "📊 Built with Streamlit | Created by Pravi Jain"]
   /\ log (run_dashboard draw view)
      = flat_map (fun p => panel_log p (outcome draw p view)) panels)
  /\ forall ps1 p ps2 e,
       panels = ps1 ++ p :: ps2 ->
       outcome draw p view = Raise e ->
       exists above below logged_before logged_after,
         page (run_with draw (ps1 ++ ps2) view) = above ++ below
         /\ page (run_dashboard draw view)
            = above ++ [Subheader (header p)] ++ below
         /\ log (run_with draw (ps1 ++ ps2) view)
            = logged_before ++ logged_after
         /\ log (run_dashboard draw view)
            = logged_before
              ++ [{| levelname := ERROR; message := prefix p ++ e |}]
              ++ logged_after.
Proof.
  split.
  - apply run_with_alone, panels_read_rows.
  - intros ps1 p ps2 e Hsplit Hfail.
    pose proof panels_read_rows as Hall. rewrite Hsplit in Hall.
    assert (Hrest : Forall reads_rows (ps1 ++ ps2)).
    { rewrite Forall_app in *. destruct Hall as [H1 H2].
      inversion H2; subst. auto. }
    unfold run_dashboard. rewrite Hsplit.
    destruct (run_with_alone draw _ view Hall) as [Hpg Hlg].
    destruct (run_with_alone draw _ view Hrest) as [Hpg' Hlg'].
    rewrite Hpg, Hlg, Hpg', Hlg'. rewrite !flat_map_app. cbn [flat_map].
    rewrite Hfail. cbn [panel_elements panel_log].
    exists ([Title "🏨 Hotel Booking Dashboard"]
            ++ flat_map (fun p => panel_elements p (outcome draw p view)) ps1),
           (flat_map (fun p => panel_elements p (outcome draw p view)) ps2
            ++ [Markdown "---";
                Markdown "📊 Built with Streamlit | Created by Pravi Jain"]),
           (flat_map (fun p => panel_log p (outcome draw p view)) ps1),
           (flat_map (fun p => panel_log p (outcome draw p view)) ps2).
    repeat split; now rewrite <- ?app_assoc.
Qed.

Lemma panel_failures_isolated_witness :
  exists above below logged_before logged_after,
    page (run_with draw_ok (tl panels) one_canceled) = above ++ below
    /\ page (run_dashboard draw_ok one_canceled)
       = above ++ [Subheader (header panel_1)] ++ below
    /\ log (run_with draw_ok (tl panels) one_canceled)
       = logged_before ++ logged_after
    /\ log (run_dashboard draw_ok one_canceled)
       = logged_before
         ++ [{| levelname := ERROR;
                message := prefix panel_1 ++ "'label' must be of length 'x'" |}]
         ++ logged_after.
Proof.
  apply (proj2 (panel_failures_isolated draw_ok one_canceled)
           [] panel_1 (tl panels) "'label' must be of length 'x'").
  - reflexivity.
  - reflexivity.
Defined.

(** C8, as stated, fails on "nothing is rendered for that panel": the
    subheader of a failing panel is on the page, so the page is not the one
    of the script without that panel. *)
Lemma failed_panel_keeps_subheader :
  ~ (forall draw view ps1 p ps2 e,
       panels = ps1 ++ p :: ps2 ->
       outcome draw p view = Raise e ->
       page (run_dashboard draw view) = page (run_with draw (ps1 ++ ps2) view)).
Proof.
  intros H.
  specialize (H draw_ok one_canceled [] panel_1 (tl panels)
                "'label' must be of length 'x'" eq_refl eq_refl).
  apply (f_equal (@List.length Element)) in H. vm_compute in H. discriminate.
Qed.

(** ** Decimal texts *)

Lemma Zrange_In (lo n z : Z) :
  (lo <= z < lo + n)%Z -> In z (Zrange lo n).
Proof.
  intros H. unfold Zrange. apply in_map_iff.
  exists (Z.to_nat (z - lo)). split; [lia|].
  apply in_seq. lia.
Qed.

Lemma Zrange_forallb (P : Z -> bool) (lo n : Z) :
  forallb P (Zrange lo n) = true ->
  forall z, (lo <= z < lo + n)%Z -> P z = true.
Proof.
  intros H z Hz. rewrite forallb_forall in H. now apply H, Zrange_In.
Qed.

Lemma str_int (z : Z) : NilZero.int_of_string (str z) = Some (Z.to_int z).
Proof.
  unfold str. apply NilZero.isi; destruct z; simpl; try discriminate;
    intros [= H]; now apply Unsigned.to_uint_nonnil in H.
Qed.

Lemma str_value (z : Z) (i : Decimal.int) :
  NilZero.int_of_string (str z) = Some i -> z = Z.of_int i.
Proof.
  rewrite str_int. intros [= <-]. symmetry. apply DecimalZ.of_to.
Qed.

Lemma str_negative (z : Z) :
  (z < 0)%Z -> exists s, str z = String "-" s.
Proof.
  destruct z as [|p|p]; try lia. intros _. unfold str. simpl. eauto.
Qed.

Lemma uint_text_digits (u : Decimal.uint) :
  all_digits (NilEmpty.string_of_uint u) = true.
Proof. induction u; simpl; auto. Qed.

Lemma str_digits (z : Z) : (0 <= z)%Z -> all_digits (str z) = true.
Proof.
  destruct z as [|p|p]; try lia; intros _.
  - reflexivity.
  - unfold str. simpl. unfold NilZero.string_of_uint.
    destruct (Pos.to_uint p) eqn:E; try reflexivity;
      rewrite <- E; apply uint_text_digits.
Qed.

Lemma digit_cases (c : ascii) (v : Z) :
  digit c = Some v ->
  In (c, v) [("0"%char, 0%Z); ("1"%char, 1%Z); ("2"%char, 2%Z);
             ("3"%char, 3%Z); ("4"%char, 4%Z); ("5"%char, 5%Z);
             ("6"%char, 6%Z); ("7"%char, 7%Z); ("8"%char, 8%Z);
             ("9"%char, 9%Z)].
Proof.
  destruct c as [[|] [|] [|] [|] [|] [|] [|] [|]]; simpl; intros [= <-];
    tauto.
Qed.

Lemma digit_not_dash (c : ascii) (v : Z) :
  digit c = Some v -> Ascii.eqb c "-" = false.
Proof.
  intros H. apply digit_cases in H. simpl in H.
  repeat (destruct H as [[= <- _]|H]; [reflexivity|]). contradiction.
Qed.

(** ** The day field *)

Lemma day_texts : forallb day_text (Zrange 1 31) = true.
Proof. vm_compute. reflexivity. Qed.

Lemma parse_day_Some (s : string) (v : Z) :
  parse_day s = Some v ->
  (1 <= v <= 31)%Z /\ no_dash s = true
  /\ exists i, NilZero.int_of_string s = Some i /\ Z.of_int i = v.
Proof.
  destruct s as [|a [|b [|c s]]]; unfold parse_day; try discriminate.
  - destruct (digit a) as [x|] eqn:Ea; [|discriminate].
    destruct (1 <=? x)%Z eqn:Ex; [|discriminate]. intros [= <-].
    apply digit_cases in Ea. simpl in Ea.
    repeat (destruct Ea as [[= <- <-]|Ea];
            [try discriminate; repeat split; try lia; eexists; split; reflexivity|]).
    contradiction.
  - destruct (digit a) as [x|] eqn:Ea; [|discriminate].
    destruct (digit b) as [y|] eqn:Eb; [|discriminate].
    cbv zeta.
    destruct ((1 <=? 10 * x + y) && (10 * x + y <=? 31))%Z eqn:Ev;
      [|discriminate].
    intros [= <-]. apply digit_cases in Ea, Eb. simpl in Ea, Eb.
    repeat (destruct Ea as [[= <- <-]|Ea];
      [repeat (destruct Eb as [[= <- <-]|Eb];
         [try discriminate; repeat split; try lia; eexists; split; reflexivity|]);
       contradiction|]).
    contradiction.
Qed.

Lemma parse_day_str (d : Z) :
  parse_day (str d)
  = if ((1 <=? d) && (d <=? 31))%Z then Some d else None.
Proof.
  destruct ((1 <=? d) && (d <=? 31))%Z eqn:E.
  - assert (H : day_text d = true).
    { apply (Zrange_forallb _ 1 31 day_texts). lia. }
    unfold day_text in H. destruct (parse_day (str d)) as [v|];
      [|discriminate].
    apply Z.eqb_eq in H. now subst.
  - destruct (parse_day (str d)) as [v|] eqn:Ev; [|reflexivity].
    apply parse_day_Some in Ev. destruct Ev as [Hv [_ [i [Hi Hiv]]]].
    apply str_value in Hi. lia.
Qed.

(** ** The year field *)

Local Open Scope string_scope.

Lemma year_texts : forallb four_digit_text (Zrange 1000 9000) = true.
Proof. vm_compute. reflexivity. Qed.

Lemma short_texts : forallb short_text (Zrange 0 1000) = true.
Proof. vm_compute. reflexivity. Qed.

Lemma four_digits_below_10000 :
  forallb (fun a => forallb (fun b => forallb (fun c =>
    forallb (fun d => below_10000 a b c d) digit_chars) digit_chars)
    digit_chars) digit_chars = true.
Proof. vm_compute. reflexivity. Qed.

Lemma digit_In (c : ascii) (v : Z) : digit c = Some v -> In c digit_chars.
Proof.
  intros H. apply digit_cases in H. simpl in H. unfold digit_chars.
  repeat (destruct H as [[= <- _]|H]; [simpl; tauto|]). contradiction.
Qed.

Lemma parse_year_Some (s : string) (v : Z) (rest : string) :
  parse_year s = Some (v, rest) ->
  exists a b c d x3 x2 x1 x0,
    s = String a (String b (String c (String d rest)))
    /\ digit a = Some x3 /\ digit b = Some x2
    /\ digit c = Some x1 /\ digit d = Some x0
    /\ v = (1000 * x3 + 100 * x2 + 10 * x1 + x0)%Z.
Proof.
  destruct s as [|a [|b [|c [|d s]]]]; unfold parse_year; try discriminate.
  destruct (digit a) as [x3|] eqn:Ea; [|discriminate].
  destruct (digit b) as [x2|] eqn:Eb; [|discriminate].
  destruct (digit c) as [x1|] eqn:Ec; [|discriminate].
  destruct (digit d) as [x0|] eqn:Ed; [|discriminate].
  intros [= <- <-]. exists a, b, c, d, x3, x2, x1, x0. auto 10.
Qed.

Lemma four_digit_text_range (y : Z) (a b c d : ascii) (x3 x2 x1 x0 : Z) :
  str y = String a (String b (String c (String d EmptyString))) ->
  digit a = Some x3 -> digit b = Some x2 ->
  digit c = Some x1 -> digit d = Some x0 ->
  (1000 <= y <= 9999)%Z.
Proof.
  intros Hs Ha Hb Hc Hd.
  assert (Hnonneg : (0 <= y)%Z).
  { destruct (Z.lt_ge_cases y 0) as [Hneg|]; [|assumption].
    destruct (str_negative y Hneg) as [s' Hs']. rewrite Hs' in Hs.
    injection Hs as <- _. discriminate. }
  assert (Hup : (y <= 9999)%Z).
  { pose proof four_digits_below_10000 as H.
    rewrite forallb_forall in H. specialize (H a (digit_In _ _ Ha)).
    rewrite forallb_forall in H. specialize (H b (digit_In _ _ Hb)).
    rewrite forallb_forall in H. specialize (H c (digit_In _ _ Hc)).
    rewrite forallb_forall in H. specialize (H d (digit_In _ _ Hd)).
    unfold below_10000 in H. rewrite <- Hs, str_int in H.
    rewrite DecimalZ.of_to in H. now apply Z.leb_le. }
  split; [|assumption].
  destruct (Z.lt_ge_cases y 1000) as [Hlow|]; [|lia].
  assert (Hshort : short_text y = true).
  { apply (Zrange_forallb _ 0 1000 short_texts). lia. }
  unfold short_text in Hshort. rewrite Hs in Hshort. discriminate.
Qed.

(** The year and the dash after it are read exactly when the year has four
    digits. *)
Lemma year_field (y : Z) (rest : string) :
  match parse_year (str y ++ String "-" rest) with
  | None => None
  | Some (v, s1) =>
      match parse_dash s1 with
      | None => None
      | Some s2 => Some (v, s2)
      end
  end
  = if ((1000 <=? y) && (y <=? 9999))%Z then Some (y, rest) else None.
Proof.
  destruct ((1000 <=? y) && (y <=? 9999))%Z eqn:E.
  - assert (H : four_digit_text y = true).
    { apply (Zrange_forallb _ 1000 9000 year_texts). lia. }
    unfold four_digit_text in H.
    destruct (parse_year (str y)) as [[v [|? ?]]|] eqn:Ey; try discriminate.
    apply Z.eqb_eq in H. subst v.
    apply parse_year_Some in Ey.
    destruct Ey as [a [b [c [d [x3 [x2 [x1 [x0 [Hs [Ha [Hb [Hc [Hd Hv]]]]]]]]]]]]].
    rewrite Hs. cbn [append]. unfold parse_year.
    rewrite Ha, Hb, Hc, Hd, <- Hv. reflexivity.
  - destruct (parse_year (str y ++ String "-" rest)) as [[v s1]|] eqn:Ey;
      [|reflexivity].
    destruct (parse_dash s1) as [s2|] eqn:Edash; [|reflexivity]. exfalso.
    apply parse_year_Some in Ey.
    destruct Ey as [a [b [c [d [x3 [x2 [x1 [x0 [Hs [Ha [Hb [Hc [Hd Hv]]]]]]]]]]]]].
    destruct (Z.lt_ge_cases y 0) as [Hneg|Hnonneg].
    + destruct (str_negative y Hneg) as [s' Hs']. rewrite Hs' in Hs.
      simpl in Hs. injection Hs as <- _. discriminate.
    + pose proof (str_digits y Hnonneg) as Hdig.
      destruct (str y) as [|c1 [|c2 [|c3 [|c4 [|c5 s]]]]] eqn:Estr;
        simpl in Hs.
      * injection Hs as <- _. discriminate.
      * injection Hs as _ <- _. discriminate.
      * injection Hs as _ _ <- _. discriminate.
      * injection Hs as _ _ _ <- _. discriminate.
      * injection Hs as <- <- <- <- _.
        pose proof (four_digit_text_range y _ _ _ _ _ _ _ _ Estr Ha Hb Hc Hd).
        lia.
      * injection Hs as _ _ _ _ <-. simpl in Hdig.
        destruct (digit c1); [|discriminate].
        destruct (digit c2); [|discriminate].
        destruct (digit c3); [|discriminate].
        destruct (digit c4); [|discriminate].
        destruct (digit c5) as [x|] eqn:E5; [|discriminate].
        simpl in Edash. now rewrite (digit_not_dash _ _ E5) in Edash.
Qed.

(** ** The month field *)

Lemma strip_prefix_app (p rest : string) :
  strip_prefix p (p ++ rest) = Some rest.
Proof.
  induction p as [|a p IH]; simpl; [reflexivity|].
  now rewrite Ascii.eqb_refl.
Qed.

Lemma strip_prefix_Some (p s rest : string) :
  strip_prefix p s = Some rest -> s = p ++ rest.
Proof.
  revert s. induction p as [|a p IH]; intros s; simpl.
  - now intros [= ->].
  - destruct s as [|b s]; [discriminate|].
    destruct (Ascii.eqb a b) eqn:E; [|discriminate].
    apply Ascii.eqb_eq in E. subst b. intros H. now rewrite (IH _ H).
Qed.

Lemma parse_month_from_Some (names : list string) (k j : Z) (s rest : string) :
  parse_month_from names k s = Some (j, rest) ->
  exists n, In n names /\ s = n ++ rest.
Proof.
  revert k. induction names as [|n names IH]; intros k; simpl; [discriminate|].
  destruct (strip_prefix n s) as [r|] eqn:E.
  - intros [= <- <-]. exists n. split; [now left | now apply strip_prefix_Some].
  - intros H. destruct (IH _ H) as [n' [Hin Hs]]. exists n'. auto.
Qed.

Lemma month_number_cases (m : string) (k : Z) :
  month_number m = Some k ->
  In (m, k) [("January", 1%Z); ("February", 2%Z); ("March", 3%Z);
             ("April", 4%Z); ("May", 5%Z); ("June", 6%Z); ("July", 7%Z);
             ("August", 8%Z); ("September", 9%Z); ("October", 10%Z);
             ("November", 11%Z); ("December", 12%Z)].
Proof.
  unfold month_number, month_order. cbn [index_from].
  repeat (match goal with
          | |- context [String.eqb m ?n] =>
              destruct (String.eqb_spec m n) as [->|_];
              [intros [= <-]; simpl; tauto|]
          end).
  discriminate.
Qed.

Lemma month_number_In (m : string) :
  In m month_order -> month_number m <> None.
Proof.
  unfold month_order. simpl.
  intros H. repeat (destruct H as [<-|H]; [discriminate|]). contradiction.
Qed.

Lemma parse_month_canonical (m : string) (k : Z) (rest : string) :
  month_number m = Some k -> parse_month (m ++ rest) = Some (k, rest).
Proof.
  intros H. apply month_number_cases in H. simpl in H.
  repeat (destruct H as [[= <- <-]|H]; [reflexivity|]). contradiction.
Qed.

Lemma no_dash_app_dash (x y : string) : no_dash (x ++ String "-" y) = false.
Proof.
  induction x as [|c x IH]; simpl; [reflexivity|].
  rewrite IH. apply andb_false_r.
Qed.

Lemma dash_split (n m r sd : string) :
  no_dash n = true -> no_dash r = true ->
  n ++ String "-" r = m ++ String "-" sd -> n = m.
Proof.
  revert m. induction n as [|a n IH]; intros [|c m] Hn Hr; simpl; intros H.
  - reflexivity.
  - injection H as <- H. rewrite H, no_dash_app_dash in Hr. discriminate.
  - injection H as -> _. simpl in Hn. discriminate.
  - injection H as <- H. simpl in Hn. apply andb_true_iff in Hn.
    f_equal. now apply (IH m).
Qed.

Lemma month_names_no_dash : forallb no_dash month_order = true.
Proof. reflexivity. Qed.

(** The month, the dash after it and the day are read exactly when the
    month is a canonical name and the day lies between 1 and 31. *)
Lemma month_day_fields (m : string) (d : Z) :
  match parse_month (m ++ String "-" (str d)) with
  | None => None
  | Some (k, s3) =>
      match parse_dash s3 with
      | None => None
      | Some s4 =>
          match parse_day s4 with
          | None => None
          | Some v => Some (k, v)
          end
      end
  end
  = match month_number m with
    | None => None
    | Some k => if ((1 <=? d) && (d <=? 31))%Z then Some (k, d) else None
    end.
Proof.
  destruct (month_number m) as [k|] eqn:Em.
  - rewrite (parse_month_canonical _ _ _ Em). simpl.
    rewrite parse_day_str. now destruct ((1 <=? d) && (d <=? 31))%Z.
  - destruct (parse_month (m ++ String "-" (str d))) as [[k s3]|] eqn:Ep;
      [|reflexivity].
    destruct (parse_dash s3) as [s4|] eqn:Edash; [|reflexivity].
    destruct (parse_day s4) as [v|] eqn:Eday; [|reflexivity]. exfalso.
    apply parse_month_from_Some in Ep. destruct Ep as [n [Hn Hs]].
    destruct s3 as [|c s3]; [discriminate|]. simpl in Edash.
    destruct (Ascii.eqb c "-") eqn:Ec; [|discriminate].
    apply Ascii.eqb_eq in Ec. subst c. injection Edash as ->.
    apply parse_day_Some in Eday. destruct Eday as [_ [Hnd _]].
    pose proof month_names_no_dash as Hall. rewrite forallb_forall in Hall.
    symmetry in Hs. apply dash_split in Hs; [|now apply Hall | assumption].
    subst n. now apply month_number_In in Hn.
Qed.

(** ** Range of the timestamps *)

Local Open Scope Z_scope.

Lemma days_in_month_bounds (y k : Z) : 0 <= days_in_month y k <= 31.
Proof.
  unfold days_in_month.
  destruct k as [|p|p]; simpl; try lia.
  do 4 (try (destruct p as [p|p|]; simpl; try lia));
    destruct (is_leap y); lia.
Qed.

Lemma days_before_month_bounds (y k : Z) :
  1 <= k <= 12 -> 0 <= days_before_month y k <= 335.
Proof.
  intros Hk.
  assert (H : k = 1 \/ k = 2 \/ k = 3 \/ k = 4 \/ k = 5 \/ k = 6 \/ k = 7
              \/ k = 8 \/ k = 9 \/ k = 10 \/ k = 11 \/ k = 12) by lia.
  unfold days_before_month.
  repeat (destruct H as [H|H]); subst k;
    match goal with
    | |- context [(Z.to_nat ?k - 1)%nat] =>
        let n := eval vm_compute in (Z.to_nat k - 1)%nat in
        change (Z.to_nat k - 1)%nat with n
    end;
    cbn [fold_right map seq Z.of_nat Pos.of_succ_nat Pos.succ days_in_month];
    destruct (is_leap y); lia.
Qed.

Lemma representable_days (t : Timestamp) :
  representable t = true <-> -106751 <= toordinal t - 719163 <= 106751.
Proof.
  unfold representable, ns_since_epoch.
  change (2 ^ 63) with 9223372036854775808.
  rewrite andb_true_iff, !Z.ltb_lt. lia.
Qed.

Lemma days_before_year_late (y : Z) : 2263 <= y -> 826178 <= days_before_year y.
Proof.
  intros H. unfold days_before_year. cbv zeta.
  Z.div_mod_to_equations. lia.
Qed.

Lemma days_before_year_early (y : Z) : y <= 1676 -> days_before_year y <= 611781.
Proof.
  intros H. unfold days_before_year. cbv zeta.
  Z.div_mod_to_equations. lia.
Qed.

Lemma days_before_year_within (y : Z) :
  1678 <= y <= 2261 -> 612512 <= days_before_year y <= 825448.
Proof.
  intros H. unfold days_before_year. cbv zeta.
  Z.div_mod_to_equations. lia.
Qed.

Lemma representable_year (t : Timestamp) :
  1 <= ts_month t <= 12 -> 1 <= ts_day t <= 31 ->
  representable t = true -> 1677 <= ts_year t <= 2262.
Proof.
  intros Hm Hd Hr. apply representable_days in Hr. unfold toordinal in Hr.
  pose proof (days_before_month_bounds (ts_year t) _ Hm) as Hbm.
  destruct (Z.le_gt_cases (ts_year t) 1676) as [Hlo|Hlo].
  - pose proof (days_before_year_early _ Hlo). lia.
  - destruct (Z.le_gt_cases 2263 (ts_year t)) as [Hhi|Hhi]; [|lia].
    pose proof (days_before_year_late _ Hhi). lia.
Qed.

Lemma year_representable (t : Timestamp) :
  1678 <= ts_year t <= 2261 ->
  1 <= ts_month t <= 12 -> 1 <= ts_day t <= 31 ->
  representable t = true.
Proof.
  intros Hy Hm Hd. apply representable_days. unfold toordinal.
  pose proof (days_before_month_bounds (ts_year t) _ Hm).
  pose proof (days_before_year_within _ Hy). lia.
Qed.

Lemma month_number_range (m : string) (k : Z) :
  month_number m = Some k -> 1 <= k <= 12.
Proof.
  intros H. apply month_number_cases in H. simpl in H.
  repeat (destruct H as [[= _ <-]|H]; [lia|]). contradiction.
Qed.

(** ** The derived date *)

(** What the parser returns on the text built from a year, a month name and
    a day. *)
Lemma strptime_text (y : Z) (m : string) (d : Z) :
  strptime (str y ++ "-" ++ m ++ "-" ++ str d)%string
  = if (1000 <=? y) && (y <=? 9999)
    then match month_number m with
         | None => None
         | Some k =>
             if (1 <=? d) && (d <=? 31)
             then let t := {| ts_year := y; ts_month := k; ts_day := d |} in
                  if (d <=? days_in_month y k) && representable t
                  then Some t else None
             else None
         end
    else None.
Proof.
  unfold strptime. cbn [append].
  pose proof (year_field y (m ++ String "-" (str d))) as Hy.
  destruct (parse_year (str y ++ String "-" (m ++ String "-" (str d))))
    as [[v s1]|].
  - destruct (parse_dash s1) as [s2|].
    + destruct ((1000 <=? y) && (y <=? 9999)); [|discriminate].
      injection Hy as -> ->.
      pose proof (month_day_fields m d) as Hm.
      destruct (parse_month (m ++ String "-" (str d))) as [[k s3]|].
      * destruct (parse_dash s3) as [s4|].
        -- destruct (parse_day s4) as [v|].
           ++ destruct (month_number m) as [k'|]; [|discriminate].
              destruct ((1 <=? d) && (d <=? 31)); [|discriminate].
              now injection Hm as -> ->.
           ++ destruct (month_number m) as [k'|]; [|reflexivity].
              now destruct ((1 <=? d) && (d <=? 31)).
        -- destruct (month_number m) as [k'|]; [|reflexivity].
           now destruct ((1 <=? d) && (d <=? 31)).
      * destruct (month_number m) as [k'|]; [|reflexivity].
        now destruct ((1 <=? d) && (d <=? 31)).
    + now destruct ((1000 <=? y) && (y <=? 9999)).
  - now destruct ((1000 <=? y) && (y <=? 9999)).
Qed.

Lemma to_datetime_coerce (col : list string) :
  to_datetime col errors_coerce = Ok (map strptime col).
Proof.
  induction col as [|s col IH]; simpl; [reflexivity|].
  rewrite IH. unfold convert. now destruct (strptime s).
Qed.




(** * Further properties of the pipeline *)

Local Close Scope Z_scope.
Local Open Scope list_scope.

(** ** Selections that keep every row *)

(** X1: the filtered view is the whole table exactly when every row has its
    hotel and its month among the selected values; this is the case when
    every option of both controls is selected. *)
Theorem whole_table_iff (df : DataFrame) (hotel_type month : list string) :
  (df_filtered df hotel_type month = df
   <-> forall r, In r df ->
         In (hotel r) hotel_type /\ In (arrival_date_month r) month)
  /\ df_filtered df (options (hotel_type_widget df)) (options (month_widget df))
     = df.
Proof.
  assert (Hiff : forall h m,
    df_filtered df h m = df
    <-> forall r, In r df -> In (hotel r) h /\ In (arrival_date_month r) m).
  { intros h m. rewrite select_rows_isin. split.
    - intros H r Hr. pose proof (filter_same_length_all _ _ _ H r Hr) as Hsel.
      unfold row_selected in Hsel. apply andb_true_iff in Hsel.
      now rewrite <- !(mem_In string_eqb_eq).
    - intros H. apply filter_all. intros r Hr. unfold row_selected.
      apply andb_true_iff. rewrite !(mem_In string_eqb_eq). auto. }
  split; [apply Hiff|]. apply Hiff. intros r Hr. simpl.
  rewrite !(unique_In string_eqb_eq). split; now apply in_map.
Qed.

(** ** The monthly trend of a filtered table *)

Lemma monthly_counts (view : DataFrame) :
  monthly view
  = map (fun m =>
           (m, let c := count String.eqb m (map arrival_date_month view) in
               if (c =? 0)%nat then None else Some c))
        month_order.
Proof.
  unfold monthly, reindex. apply map_ext. intros m.
  now rewrite (get_value_counts string_eqb_eq).
Qed.

Lemma count_month_filtered (df : DataFrame) (h sel : list string) (m : string) :
  count String.eqb m (map arrival_date_month (filter (row_selected h sel) df))
  = if mem String.eqb m sel
    then List.length
           (filter (fun r => mem String.eqb (hotel r) h
                             && String.eqb m (arrival_date_month r)) df)
    else 0%nat.
Proof.
  induction df as [|r df IH]; simpl.
  - now destruct (mem String.eqb m sel).
  - unfold row_selected at 1.
    destruct (String.eqb_spec m (arrival_date_month r)) as [->|Hne].
    + destruct (mem String.eqb (hotel r) h); simpl.
      * destruct (mem String.eqb (arrival_date_month r) sel); simpl.
        -- now rewrite String.eqb_refl, IH.
        -- exact IH.
      * exact IH.
    + rewrite andb_false_r.
      destruct (mem String.eqb (hotel r) h
                && mem String.eqb (arrival_date_month r) sel); simpl.
      * destruct (String.eqb_spec m (arrival_date_month r)); [contradiction|].
        exact IH.
      * exact IH.
Qed.

(** X2: in the monthly trend of a filtered table, a canonical month that is
    not selected has a missing value, and a selected one has the number of
    table rows of that month whose hotel is selected (missing when there is
    none). *)
Theorem monthly_of_filtered (df : DataFrame) (hotel_type sel : list string) :
  monthly (df_filtered df hotel_type sel)
  = map (fun m =>
           (m, if mem String.eqb m sel
               then let c := List.length
                               (filter (fun r =>
                                  mem String.eqb (hotel r) hotel_type
                                  && String.eqb m (arrival_date_month r)) df) in
                    if (c =? 0)%nat then None else Some c
               else None))
        month_order.
Proof.
  rewrite monthly_counts, select_rows_isin. apply map_ext. intros m.
  rewrite count_month_filtered. now destruct (mem String.eqb m sel).
Qed.

Section KeySums.
Context {K : Type} {keqb : K -> K -> bool}.
Hypothesis keqb_eq : forall x y, keqb x y = true <-> x = y.

Lemma sum_indicator (x : K) (ks : list K) :
  NoDup ks ->
  fold_right Nat.add 0 (map (fun k => if keqb k x then 1 else 0) ks)
  = if mem keqb x ks then 1 else 0.
Proof.
  induction 1 as [|k ks Hk Hnd IH]; simpl; [reflexivity|].
  rewrite IH. destruct (keqb k x) eqn:E.
  - apply keqb_eq in E. subst k.
    rewrite (proj2 (keqb_eq x x) eq_refl). simpl.
    now rewrite (proj2 (mem_not_In keqb_eq x ks) Hk).
  - replace (keqb x k) with false; [reflexivity|].
    symmetry. apply (eqb_neq keqb_eq). apply (eqb_neq keqb_eq) in E. congruence.
Qed.

Lemma sum_pointwise (f g : K -> nat) (ks : list K) :
  fold_right Nat.add 0 (map (fun k => f k + g k) ks)
  = fold_right Nat.add 0 (map f ks) + fold_right Nat.add 0 (map g ks).
Proof. induction ks as [|k ks IH]; simpl; [reflexivity|]. rewrite IH. lia. Qed.

Lemma sum_counts_keys (ks : list K) (col : list K) :
  NoDup ks ->
  fold_right Nat.add 0 (map (fun k => count keqb k col) ks)
  = List.length (filter (fun x => mem keqb x ks) col).
Proof.
  intros Hnd. induction col as [|x col IH]; simpl.
  - induction ks as [|k ks IHk]; simpl; [reflexivity|].
    inversion Hnd; subst. now apply IHk.
  - rewrite sum_pointwise, IH, (sum_indicator x ks Hnd).
    now destruct (mem keqb x ks).
Qed.
End KeySums.

Lemma present_total_counts (c : string -> nat) (ks : list string) :
  present_total
    (map (fun m => (m, if (c m =? 0)%nat then None else Some (c m))) ks)
  = fold_right Nat.add 0 (map c ks).
Proof.
  induction ks as [|k ks IH]; simpl; [reflexivity|].
  rewrite IH. destruct (c k =? 0)%nat eqn:E; simpl; [|reflexivity].
  apply Nat.eqb_eq in E. now rewrite E.
Qed.

Lemma filter_map_length (A B : Type) (f : A -> B) (p : B -> bool) (l : list A) :
  List.length (filter p (map f l))
  = List.length (filter (fun x => p (f x)) l).
Proof.
  induction l as [|x l IH]; simpl; [reflexivity|].
  destruct (p (f x)); simpl; now rewrite IH.
Qed.

Lemma month_order_NoDup : NoDup month_order.
Proof.
  unfold month_order.
  repeat (constructor; [simpl; intuition discriminate|]). constructor.
Qed.

(** X3: the counts of the monthly trend add up to the number of rows of the
    view whose month is a canonical name; when only canonical months are
    selected, they add up to the number of rows of the filtered view. *)
Theorem monthly_total (df : DataFrame) (hotel_type sel : list string) :
  (forall view,
      present_total (monthly view)
      = List.length
          (filter (fun r => mem String.eqb (arrival_date_month r) month_order)
                  view))
  /\ (incl sel month_order ->
      present_total (monthly (df_filtered df hotel_type sel))
      = List.length (df_filtered df hotel_type sel)).
Proof.
  assert (Hall : forall view,
      present_total (monthly view)
      = List.length
          (filter (fun r => mem String.eqb (arrival_date_month r) month_order)
                  view)).
  { intros view. rewrite monthly_counts.
    rewrite (present_total_counts
               (fun m => count String.eqb m (map arrival_date_month view))).
    rewrite (sum_counts_keys string_eqb_eq _ _ month_order_NoDup).
    apply filter_map_length. }
  split; [exact Hall|]. intros Hsel. rewrite Hall. f_equal.
  apply filter_all. intros r Hr. rewrite select_rows_isin in Hr.
  apply filter_In in Hr. destruct Hr as [_ Hr]. unfold row_selected in Hr.
  apply andb_true_iff in Hr. destruct Hr as [_ Hr].
  apply (mem_In string_eqb_eq). apply Hsel. now apply (mem_In string_eqb_eq).
Qed.

Lemma monthly_total_witness :
  present_total (monthly (df_filtered table_with_odd_month ["City Hotel"]
                            ["March"; "July"]))
  = List.length (df_filtered table_with_odd_month ["City Hotel"]
                   ["March"; "July"]).
Proof.
  apply (proj2 (monthly_total table_with_odd_month ["City Hotel"]
                  ["March"; "July"])).
  intros m [<-|[<-|[]]]; simpl; tauto.
Defined.

(** ** What the top-ten lists leave out *)

Lemma StronglySorted_app_cross (A : Type) (R : A -> A -> Prop) (l1 l2 : list A) :
  StronglySorted R (l1 ++ l2) ->
  forall a b, In a l1 -> In b l2 -> R a b.
Proof.
  induction l1 as [|x l1 IH]; simpl; intros Hs a b Ha Hb; [contradiction|].
  inversion Hs as [|? ? Hs' Hall]; subst.
  destruct Ha as [<-|Ha].
  - rewrite Forall_forall in Hall. apply Hall, in_or_app. now right.
  - now apply IH.
Qed.

Lemma dropna_In (A : Type) (col : list (option A)) (x : A) :
  In x (dropna col) <-> In (Some x) col.
Proof.
  induction col as [|[y|] col IH]; simpl.
  - tauto.
  - rewrite IH. split; intros [H|H]; auto; [left; congruence|].
    injection H as ->. now left.
  - rewrite IH. split; [auto|]. intros [H|H]; [discriminate | assumption].
Qed.

Lemma value_counts_complete (col : list string) (k : string) :
  In k col -> In (k, count String.eqb k col) (value_counts String.eqb col).
Proof.
  intros Hk. eapply Permutation_in.
  - symmetry. apply sort_values_desc_perm.
  - apply in_map_iff. exists k. split; [reflexivity|].
    now apply (unique_In string_eqb_eq).
Qed.

Lemma head_keys_NoDup (V : Type) (n : nat) (s : Series string V) :
  NoDup (map fst s) -> NoDup (map fst (head n s)).
Proof.
  intros H. unfold head. rewrite <- (firstn_skipn n s), map_app in H.
  now apply NoDup_app_remove_r in H.
Qed.

(** X4: the top-countries list names each country once and holds ten
    entries, or all the countries of the view when there are fewer; a
    country of the view that is left out has no more bookings than any
    country that is listed. *)
Theorem top_countries_are_top (view : DataFrame) :
  let col := dropna (map country view) in
  NoDup (map fst (top_countries view))
  /\ List.length (top_countries view)
     = Nat.min 10 (List.length (unique String.eqb col))
  /\ forall k, In k col -> ~ In k (map fst (top_countries view)) ->
       forall k' c', In (k', c') (top_countries view) ->
         (count String.eqb k col <= c')%nat.
Proof.
  intros col. split; [|split].
  - apply head_keys_NoDup, (value_counts_keys_NoDup string_eqb_eq).
  - unfold top_countries, head. fold col.
    now rewrite length_firstn, value_counts_length.
  - intros k Hk Hout k' c' Hin.
    pose proof (value_counts_sorted col) as Hs.
    pose proof (value_counts_complete col k Hk) as Hmem.
    unfold top_countries, head in *. fold col in Hout, Hin.
    rewrite <- (firstn_skipn 10 (value_counts String.eqb col)) in Hs, Hmem.
    apply in_app_or in Hmem. destruct Hmem as [Hmem|Hmem].
    + exfalso. apply Hout. change k with (fst (k, count String.eqb k col)).
      now apply in_map.
    + destruct (StronglySorted_app_cross _ _ _ _ Hs _ _ Hin Hmem) as [Hle _].
      simpl in Hle. now apply Nat.ltb_ge in Hle.
Qed.

Lemma top_countries_are_top_witness :
  (count String.eqb "USA" (dropna (map country eleven_countries)) <= 2)%nat.
Proof.
  apply (proj2 (proj2 (top_countries_are_top eleven_countries)) "USA")
    with (k' := "PRT").
  - vm_compute. repeat (try (left; reflexivity); right).
  - vm_compute. intros H.
    repeat (destruct H as [H|H]; [discriminate|]). contradiction.
  - vm_compute. repeat (try (left; reflexivity); right).
Defined.

Lemma adr_by_country_complete (view : DataFrame) (k : string) :
  In k (dropna (map country view)) ->
  In (k, mean (adr_of k view)) (sort_values_desc Qltb (adr_by_country view)).
Proof.
  intros Hk. eapply Permutation_in.
  - symmetry. apply sort_values_desc_perm.
  - apply in_map_iff. exists k. split; [reflexivity|].
    eapply Permutation_in; [symmetry; apply sort_keys_perm|].
    now apply (unique_In string_eqb_eq).
Qed.

Lemma adr_by_country_keys_NoDup (view : DataFrame) :
  NoDup (map fst (sort_values_desc Qltb (adr_by_country view))).
Proof.
  eapply Permutation_NoDup.
  - apply Permutation_map. symmetry. apply sort_values_desc_perm.
  - unfold adr_by_country. rewrite map_map. simpl. rewrite map_id.
    eapply Permutation_NoDup; [symmetry; apply sort_keys_perm|].
    apply (unique_NoDup string_eqb_eq).
Qed.

(** X5: the top-ADR list names each country once and holds ten entries, or
    all the countries of the view when there are fewer; a country of the
    view that is left out has a mean rate no higher than that of any country
    that is listed. *)
Theorem top_adr_are_top (view : DataFrame) :
  let col := dropna (map country view) in
  NoDup (map fst (top_adr view))
  /\ List.length (top_adr view)
     = Nat.min 10 (List.length (unique String.eqb col))
  /\ forall k, In k col -> ~ In k (map fst (top_adr view)) ->
       forall k' v', In (k', v') (top_adr view) ->
         (mean (adr_of k view) <= v')%Q.
Proof.
  intros col. split; [|split].
  - apply head_keys_NoDup, adr_by_country_keys_NoDup.
  - unfold top_adr, head. rewrite length_firstn, sort_values_desc_length.
    unfold adr_by_country. rewrite length_map.
    now rewrite (Permutation_length (sort_keys_perm _)).
  - intros k Hk Hout k' v' Hin.
    assert (Hs : sorted_desc_by Qltb (fun a b => String.ltb a b = true)
                   (sort_values_desc Qltb (adr_by_country view))).
    { apply (sort_values_desc_sorted Qltb (fun a b => String.ltb a b = true)
               Qltb_asym Qltb_cotrans), adr_by_country_sorted. }
    pose proof (adr_by_country_complete view k Hk) as Hmem.
    unfold top_adr, head in *.
    rewrite <- (firstn_skipn 10 (sort_values_desc Qltb (adr_by_country view)))
      in Hs, Hmem.
    apply in_app_or in Hmem. destruct Hmem as [Hmem|Hmem].
    + exfalso. apply Hout. change k with (fst (k, mean (adr_of k view))).
      now apply in_map.
    + destruct (StronglySorted_app_cross _ _ _ _ Hs _ _ Hin Hmem) as [Hle _].
      simpl in Hle. unfold Qltb in Hle. apply negb_false_iff in Hle.
      now apply Qle_bool_iff in Hle.
Qed.

Lemma top_adr_are_top_witness :
  (mean (adr_of "PRT" eleven_countries) <= inject_Z 13 / inject_Z 1)%Q.
Proof.
  apply (proj2 (proj2 (top_adr_are_top eleven_countries)) "PRT")
    with (k' := "USA").
  - vm_compute. repeat (try (left; reflexivity); right).
  - vm_compute. intros H.
    repeat (destruct H as [H|H]; [discriminate|]). contradiction.
  - vm_compute. repeat (try (left; reflexivity); right).
Defined.

(** ** Mean rates *)

Lemma Qsum_bounds (lo hi : Q) (xs : list Q) :
  (forall x, In x xs -> (lo <= x <= hi)%Q) ->
  (inject_Z (Z.of_nat (List.length xs)) * lo <= Qsum xs
   /\ Qsum xs <= inject_Z (Z.of_nat (List.length xs)) * hi)%Q.
Proof.
  induction xs as [|x xs IH]; intros H.
  - simpl. split; apply Qle_lteq; right; ring.
  - cbn [Qsum fold_right List.length]. fold (Qsum xs).
    rewrite Nat2Z.inj_succ, <- Z.add_1_r, inject_Z_plus.
    change (inject_Z 1) with 1%Q.
    destruct (H x (or_introl eq_refl)) as [Hlo Hhi].
    destruct IH as [IHlo IHhi]; [intros y Hy; apply H; now right|].
    split; lra.
Qed.

Lemma mean_bounds (lo hi : Q) (xs : list Q) :
  xs <> [] ->
  (forall x, In x xs -> (lo <= x <= hi)%Q) ->
  (lo <= mean xs <= hi)%Q.
Proof.
  intros Hne H. destruct (Qsum_bounds lo hi xs H) as [Hlo Hhi].
  assert (Hpos : (0 < inject_Z (Z.of_nat (List.length xs)))%Q).
  { destruct xs; [congruence|]. simpl List.length.
    rewrite <- (Zlt_Qlt 0). lia. }
  unfold mean. split.
  - apply Qle_shift_div_l; [exact Hpos|]. now rewrite Qmult_comm.
  - apply Qle_shift_div_r; [exact Hpos|]. now rewrite Qmult_comm.
Qed.

Lemma adr_of_nonempty (view : DataFrame) (k : string) :
  In k (dropna (map country view)) -> adr_of k view <> [].
Proof.
  intros Hk. apply dropna_In, in_map_iff in Hk. destruct Hk as [r [Hc Hr]].
  unfold adr_of. intros Hnil. apply map_eq_nil in Hnil.
  assert (Hin : In r (filter (fun r => match country r with
                                       | Some c' => String.eqb k c'
                                       | None => false
                                       end) view)).
  { apply filter_In. split; [exact Hr|]. rewrite Hc. apply String.eqb_refl. }
  rewrite Hnil in Hin. contradiction.
Qed.



(** ** Entries of the percentage series *)

Section ValueCountsEntries.
Context {K : Type} {keqb : K -> K -> bool}.
Hypothesis keqb_eq : forall x y, keqb x y = true <-> x = y.

Lemma value_counts_In (col : list K) (k : K) (c : nat) :
  In (k, c) (value_counts keqb col) <-> In k col /\ c = count keqb k col.
Proof.
  unfold value_counts. split.
  - intros H. eapply Permutation_in in H; [|apply sort_values_desc_perm].
    apply in_map_iff in H. destruct H as [k' [[= <- <-] Hk]].
    split; [|reflexivity]. exact (proj1 (unique_In keqb_eq col k') Hk).
  - intros [Hk ->]. eapply Permutation_in.
    + symmetry. apply sort_values_desc_perm.
    + apply in_map_iff. exists k. split; [reflexivity|].
      now apply (unique_In keqb_eq).
Qed.

Lemma count_le_length (col : list K) (k : K) :
  (count keqb k col <= List.length col)%nat.
Proof.
  induction col as [|x col IH]; simpl; [lia|]. destruct (keqb k x); lia.
Qed.

Lemma percentages_In (col : list K) (k : K) (p : Q) :
  In (k, p) (mul (inject_Z 100) (value_counts_normalize keqb col))
  <-> In k col
      /\ p = (inject_Z (Z.of_nat (count keqb k col))
              / inject_Z (Z.of_nat (List.length col)) * inject_Z 100)%Q.
Proof.
  unfold mul, value_counts_normalize. cbv zeta.
  rewrite (counts_sum_value_counts keqb_eq), map_map. cbn [fst snd].
  rewrite in_map_iff. split.
  - intros [[k' c] [[= <- <-] Hin]]. apply value_counts_In in Hin.
    destruct Hin as [Hk ->]. auto.
  - intros [Hk ->]. exists (k, count keqb k col). split; [reflexivity|].
    now apply value_counts_In.
Qed.

Lemma percentage_bounds (col : list K) (k : K) :
  In k col ->
  (0 < inject_Z (Z.of_nat (count keqb k col))
       / inject_Z (Z.of_nat (List.length col)) * inject_Z 100
   <= inject_Z 100)%Q.
Proof.
  intros Hk.
  pose proof (proj2 (count_pos_In keqb_eq k col) Hk) as Hpos.
  pose proof (count_le_length col k) as Hle.
  assert (Hc : (0 < inject_Z (Z.of_nat (count keqb k col)))%Q)
    by (rewrite <- (Zlt_Qlt 0); lia).
  assert (Hn : (0 < inject_Z (Z.of_nat (List.length col)))%Q)
    by (rewrite <- (Zlt_Qlt 0); lia).
  assert (Hcn : (inject_Z (Z.of_nat (count keqb k col))
                 <= inject_Z (Z.of_nat (List.length col)))%Q)
    by (rewrite <- Zle_Qle; lia).
  change (inject_Z 100) with (100 # 1)%Q.
  set (c := inject_Z (Z.of_nat (count keqb k col))) in *.
  set (n := inject_Z (Z.of_nat (List.length col))) in *.
  assert (Hq : (0 < c / n <= 1)%Q).
  { split.
    - apply Qlt_shift_div_l; [exact Hn|]. lra.
    - apply Qle_shift_div_r; [exact Hn|]. lra. }
  split; lra.
Qed.
End ValueCountsEntries.

(** X7: the cancellation-rate series has one entry for each status that
    occurs in the view and none for a status that does not; the entry of a
    status is its share of the rows of the view as a percentage, above 0 and
    at most 100. *)
Theorem cancel_rate_entries (view : DataFrame) (c : bool) (p : Q) :
  NoDup (map fst (cancel_rate view))
  /\ (In (c, p) (cancel_rate view)
      <-> In c (map is_canceled view) /\ p = proportion c view)
  /\ (In (c, p) (cancel_rate view) -> (0 < p <= inject_Z 100)%Q).
Proof.
  assert (Hiff : In (c, p) (cancel_rate view)
                 <-> In c (map is_canceled view) /\ p = proportion c view).
  { unfold cancel_rate, proportion.
    rewrite (percentages_In bool_eqb_eq), length_map. reflexivity. }
  split; [|split; [exact Hiff|]].
  - unfold cancel_rate, mul, value_counts_normalize. cbv zeta.
    rewrite !map_map. cbn [fst]. apply (value_counts_keys_NoDup bool_eqb_eq).
  - intros H. apply Hiff in H. destruct H as [Hc ->]. unfold proportion.
    rewrite <- (length_map is_canceled view).
    now apply (percentage_bounds bool_eqb_eq).
Qed.

Lemma cancel_rate_entries_witness :
  (0 < proportion true one_canceled <= inject_Z 100)%Q.
Proof.
  apply (proj2 (proj2 (cancel_rate_entries one_canceled true
                         (proportion true one_canceled)))).
  now left.
Defined.


(** ** When the cancellation pie is drawn *)

Lemma value_counts_two (col : list bool) :
  In true col -> In false col ->
  exists a,
    value_counts Bool.eqb col
    = [(a, count Bool.eqb a col); (negb a, count Bool.eqb (negb a) col)]
    /\ (count Bool.eqb (negb a) col <= count Bool.eqb a col)%nat.
Proof.
  intros Ht Hf. unfold value_counts.
  destruct (unique_bool_both col Ht Hf) as [-> | ->]; simpl.
  - destruct (count Bool.eqb true col <? count Bool.eqb false col)%nat eqn:E.
    + exists false. split; [reflexivity|]. apply Nat.ltb_lt in E. simpl. lia.
    + exists true. split; [reflexivity|]. apply Nat.ltb_ge in E. exact E.
  - destruct (count Bool.eqb false col <? count Bool.eqb true col)%nat eqn:E.
    + exists true. split; [reflexivity|]. apply Nat.ltb_lt in E. simpl. lia.
    + exists false. split; [reflexivity|]. apply Nat.ltb_ge in E. exact E.
Qed.

Lemma cancel_rate_two (view : DataFrame) :
  In true (map is_canceled view) -> In false (map is_canceled view) ->
  exists a,
    cancel_rate view = [(a, proportion a view); (negb a, proportion (negb a) view)]
    /\ (count Bool.eqb (negb a) (map is_canceled view)
        <= count Bool.eqb a (map is_canceled view))%nat.
Proof.
  intros Ht Hf. destruct (value_counts_two _ Ht Hf) as [a [Hvc Hle]].
  exists a. split; [|exact Hle].
  unfold cancel_rate, value_counts_normalize. cbv zeta.
  rewrite (counts_sum_value_counts bool_eqb_eq), length_map, Hvc.
  reflexivity.
Qed.

Lemma cancel_rate_length (view : DataFrame) :
  List.length (cancel_rate view)
  = List.length (unique Bool.eqb (map is_canceled view)).
Proof.
  unfold cancel_rate, mul, value_counts_normalize. cbv zeta.
  now rewrite !length_map, value_counts_length.
Qed.

Lemma proportion_le (view : DataFrame) (a b : bool) :
  (count Bool.eqb a (map is_canceled view)
   <= count Bool.eqb b (map is_canceled view))%nat ->
  (proportion a view <= proportion b view)%Q.
Proof.
  intros Hle. unfold proportion, Qdiv.
  apply Qmult_le_compat_r; [|discriminate].
  apply Qmult_le_compat_r; [rewrite <- Zle_Qle; lia|].
  apply Qinv_le_0_compat. rewrite <- (Zle_Qle 0). lia.
Qed.

Lemma panel_1_draws (view : DataFrame) :
  In true (map is_canceled view) -> In false (map is_canceled view) ->
  exists a,
    snd (body panel_1 (fresh view))
    = Ok (Pie [("Not Canceled", proportion a view);
               ("Canceled", proportion (negb a) view)])
    /\ cancel_rate view
       = [(a, proportion a view); (negb a, proportion (negb a) view)]
    /\ (count Bool.eqb (negb a) (map is_canceled view)
        <= count Bool.eqb a (map is_canceled view))%nat.
Proof.
  intros Ht Hf. destruct (cancel_rate_two view Ht Hf) as [a [Hrate Hle]].
  exists a. split; [|split; assumption]. simpl. now rewrite Hrate.
Qed.

Lemma panel_1_raises (view : DataFrame) :
  ~ (In true (map is_canceled view) /\ In false (map is_canceled view)) ->
  snd (body panel_1 (fresh view)) = Raise "'label' must be of length 'x'".
Proof.
  intros Hnot. set (col := map is_canceled view) in *.
  assert (Hconst : exists c, Forall (eq c) col).
  { destruct (mem Bool.eqb true col) eqn:Et.
    - exists true. apply Forall_forall. intros [|] Hx; [reflexivity|].
      exfalso. apply Hnot. split; [now apply (mem_In bool_eqb_eq) | exact Hx].
    - exists false. apply Forall_forall. intros [|] Hx; [|reflexivity].
      apply (mem_not_In bool_eqb_eq) in Et. contradiction. }
  destruct Hconst as [c Hc].
  assert (Hlen : (List.length (cancel_rate view) <= 1)%nat).
  { rewrite cancel_rate_length. fold col. unfold unique.
    rewrite (unique_from_const c [] col Hc). simpl. destruct col; simpl; lia. }
  cbn [body panel_1 reading snd rows fresh]. unfold pie.
  rewrite length_map.
  destruct (cancel_rate view) as [|e [|e' l]]; simpl in *;
    try reflexivity; lia.
Qed.



(** X9: when the view holds a canceled booking and at least as many
    non-canceled ones, the wedge labelled 'Not Canceled' shows the share of
    the non-canceled bookings and the wedge labelled 'Canceled' the share of
    the canceled ones. *)
Theorem correct_pie_labels (view : DataFrame) :
  let col := map is_canceled view in
  (0 < count Bool.eqb true col)%nat ->
  (count Bool.eqb true col <= count Bool.eqb false col)%nat ->
  exists p1 p2,
    snd (body panel_1 (fresh view))
    = Ok (Pie [("Not Canceled", p1); ("Canceled", p2)])
    /\ (p1 == proportion false view)%Q /\ (p2 == proportion true view)%Q.
Proof.
  intros col Hpos Hle.
  assert (Ht : In true col) by (apply (count_pos_In bool_eqb_eq); lia).
  assert (Hf : In false col) by (apply (count_pos_In bool_eqb_eq); lia).
  destruct (cancel_rate_two view Ht Hf) as [a [Hrate Hle']].
  exists (proportion a view), (proportion (negb a) view). split.
  - simpl. now rewrite Hrate.
  - subst col. destruct a; cbn [negb] in *.
    + assert (E : count Bool.eqb true (map is_canceled view)
                  = count Bool.eqb false (map is_canceled view)) by lia.
      unfold proportion. rewrite E. split; reflexivity.
    + split; reflexivity.
Qed.

Lemma correct_pie_labels_witness :
  let view := one_canceled
              ++ [sample_row "City Hotel" false "July" (Some "PRT") (inject_Z 100)] in
  exists p1 p2,
    snd (body panel_1 (fresh view))
    = Ok (Pie [("Not Canceled", p1); ("Canceled", p2)])
    /\ (p1 == proportion false view)%Q /\ (p2 == proportion true view)%Q.
Proof.
  intros view. apply (correct_pie_labels view); simpl; lia.
Defined.

(** ** Rounded shares *)

Local Open Scope Q_scope.

Lemma rint_choice (x : Q) : rint x = Qfloor x \/ rint x = (Qfloor x + 1)%Z.
Proof.
  unfold rint. destruct (x - inject_Z (Qfloor x) ?= 1 # 2); auto.
  destruct (Z.even (Qfloor x)); auto.
Qed.

Lemma rint_mono (x y : Q) : x <= y -> (rint x <= rint y)%Z.
Proof.
  intros Hxy. pose proof (Qfloor_resp_le x y Hxy) as Hfl.
  destruct (Z.eq_dec (Qfloor x) (Qfloor y)) as [E|E].
  - unfold rint. rewrite E.
    destruct (Qcompare_spec (x - inject_Z (Qfloor y)) (1 # 2)) as [Ex|Ex|Ex];
      destruct (Qcompare_spec (y - inject_Z (Qfloor y)) (1 # 2)) as [Ey|Ey|Ey];
      destruct (Z.even (Qfloor y)); try lia; exfalso; lra.
  - destruct (rint_choice x) as [-> | ->], (rint_choice y) as [-> | ->]; lia.
Qed.

Lemma round1_mono (x y : Q) : x <= y -> round1 x <= round1 y.
Proof.
  intros Hxy. unfold round1, Qdiv.
  apply Qmult_le_compat_r; [|discriminate].
  rewrite <- Zle_Qle. apply rint_mono.
  apply Qmult_le_compat_r; [exact Hxy | discriminate].
Qed.

Lemma rint_range (x : Q) (n : Z) :
  0 <= x <= inject_Z n -> (0 <= rint x <= n)%Z.
Proof.
  intros [Hlo Hhi]. pose proof (rint_near x) as H.
  apply Qabs_Qle_condition in H. destruct H as [H1 H2].
  assert (Hl : - (1 # 2) <= inject_Z (rint x)) by lra.
  assert (Hu : inject_Z (rint x) <= inject_Z n + (1 # 2)) by lra.
  unfold Qle in Hl, Hu. simpl in Hl, Hu. lia.
Qed.

Lemma shares_tenths (col : list string) (k : string) (v : Q) :
  In (k, v) (round (mul (inject_Z 100) (value_counts_normalize String.eqb col))) ->
  exists z : Z, (0 <= z <= 1000)%Z /\ v = inject_Z z / inject_Z 10.
Proof.
  unfold round. rewrite in_map_iff. intros [[k' p] [[= <- <-] Hin]].
  apply (percentages_In string_eqb_eq) in Hin. destruct Hin as [Hk ->].
  pose proof (percentage_bounds string_eqb_eq col k' Hk) as Hb.
  eexists. split; [|reflexivity].
  apply rint_range. change (inject_Z 1000) with (1000 # 1).
  change (inject_Z 10) with (10 # 1). change (inject_Z 100) with (100 # 1) in *.
  split; lra.
Qed.

Lemma shares_descending (col : list string) :
  StronglySorted (fun a b : string * Q => snd b <= snd a)
    (round (mul (inject_Z 100) (value_counts_normalize String.eqb col))).
Proof.
  unfold round, mul, value_counts_normalize. cbv zeta. rewrite !map_map.
  cbn [fst snd].
  apply StronglySorted_map
    with (R := fun a b : string * Q => snd b <= snd a).
  eapply StronglySorted_impl_In; [|apply (value_counts_sorted col)].
  intros a b _ _ [Hle _]. cbn [snd]. apply Nat.ltb_ge in Hle.
  apply round1_mono. unfold Qdiv.
  apply Qmult_le_compat_r; [|discriminate].
  apply Qmult_le_compat_r; [rewrite <- Zle_Qle; lia|].
  apply Qinv_le_0_compat. rewrite <- (Zle_Qle 0). lia.
Qed.



Local Close Scope Q_scope.

(** ** The stay-duration column *)



(** ** Disjoint selections *)

Lemma mem_app (x : string) (l1 l2 : list string) :
  mem String.eqb x (l1 ++ l2) = mem String.eqb x l1 || mem String.eqb x l2.
Proof.
  induction l1 as [|y l1 IH]; simpl; [reflexivity|].
  now rewrite IH, orb_assoc.
Qed.

Lemma guests_cons (r : Booking) (view : DataFrame) :
  guests (r :: view)
  = [("adults", (adults r + fold_right Z.add 0 (map adults view))%Z);
     ("children",
      match children r with
      | Some c => (c + fold_right Z.add 0 (dropna (map children view)))%Z
      | None => fold_right Z.add 0%Z (dropna (map children view))
      end);
     ("babies", (babies r + fold_right Z.add 0 (map babies view))%Z)].
Proof. unfold guests. simpl. now destruct (children r). Qed.

Lemma row_selected_app (h1 h2 month : list string) (r : Booking) :
  row_selected (h1 ++ h2) month r
  = row_selected h1 month r || row_selected h2 month r.
Proof.
  unfold row_selected. rewrite mem_app.
  destruct (mem String.eqb (hotel r) h1), (mem String.eqb (hotel r) h2),
           (mem String.eqb (arrival_date_month r) month); reflexivity.
Qed.

Lemma row_selected_disjoint (h1 h2 month : list string) (r : Booking) :
  (forall x, In x h1 -> ~ In x h2) ->
  row_selected h1 month r = true -> row_selected h2 month r = false.
Proof.
  unfold row_selected. intros Hdisj H1. apply andb_true_iff in H1.
  destruct H1 as [H1 _]. apply (mem_In string_eqb_eq) in H1.
  apply Hdisj in H1. apply (mem_not_In string_eqb_eq) in H1.
  now rewrite H1.
Qed.



(** ** What the page and the log always hold *)

Lemma subheaders_app (p1 p2 : list Element) :
  subheaders (p1 ++ p2) = subheaders p1 ++ subheaders p2.
Proof.
  induction p1 as [|[s|s|f|s] p1 IH]; simpl; now rewrite ?IH.
Qed.

Lemma charts_app (p1 p2 : list Element) :
  charts (p1 ++ p2) = charts p1 ++ charts p2.
Proof.
  induction p1 as [|[s|s|f|s] p1 IH]; simpl; now rewrite ?IH.
Qed.

Lemma panels_subheaders (o : Panel -> result Figure) (ps : list Panel) :
  subheaders (flat_map (fun p => panel_elements p (o p)) ps) = map header ps.
Proof.
  induction ps as [|p ps IH]; simpl; [reflexivity|].
  destruct (o p); simpl; now rewrite IH.
Qed.

Lemma panels_chart_or_log (o : Panel -> result Figure) (ps : list Panel) :
  (List.length (charts (flat_map (fun p => panel_elements p (o p)) ps))
   + List.length (flat_map (fun p => panel_log p (o p)) ps))%nat
  = List.length ps.
Proof.
  induction ps as [|p ps IH]; simpl; [reflexivity|].
  destruct (o p); simpl; lia.
Qed.

Lemma panels_log_level (o : Panel -> result Figure) (ps : list Panel) :
  Forall (fun rec => levelname rec = ERROR)
    (flat_map (fun p => panel_log p (o p)) ps).
Proof.
  induction ps as [|p ps IH]; simpl; [constructor|].
  destruct (o p); simpl; [exact IH | now constructor].
Qed.

Lemma page_accounting_aux (draw : Figure -> result unit) (view : DataFrame) :
  (List.length (charts (page (run_dashboard draw view)))
   + List.length (log (run_dashboard draw view)) = 11)%nat.
Proof.
  unfold run_dashboard.
  destruct (run_with_alone draw panels view panels_read_rows) as [Hpg Hlg].
  rewrite Hpg, Hlg, !charts_app. cbn [charts app]. rewrite app_nil_r.
  apply (panels_chart_or_log (fun p => outcome draw p view) panels).
Qed.

(** X14: whatever the view holds and whatever the drawing calls do, the
    page starts with the title, ends with the two footer lines and shows the
    eleven subheaders in their fixed order; every panel either shows its
    chart or logs one record, never both and never neither, and every record
    of the log is at error severity. *)
Theorem page_accounting (draw : Figure -> result unit) (view : DataFrame) :
  let st := run_dashboard draw view in
  subheaders (page st) = map header panels
  /\ (List.length (charts (page st)) + List.length (log st) = 11)%nat
  /\ Forall (fun rec => levelname rec = ERROR) (log st)
  /\ exists middle,
       page st = [Title "🏨 Hotel Booking Dashboard"] ++ middle
                 ++ [Markdown "---";
                     Markdown "📊 Built with Streamlit | Created by Pravi Jain"].
Proof.
  intros st. subst st. unfold run_dashboard.
  destruct (run_with_alone draw panels view panels_read_rows) as [Hpg Hlg].
  rewrite Hpg, Hlg. split; [|split; [|split]].
  - rewrite !subheaders_app, panels_subheaders. cbn [subheaders app].
    now rewrite app_nil_r.
  - rewrite <- Hpg, <- Hlg. apply page_accounting_aux.
  - apply panels_log_level.
  - eexists. reflexivity.
Qed.

(** X15: when no drawing call raises, the log is empty and all eleven
    charts are shown exactly when the view holds both a canceled and a
    non-canceled booking; in every other view the log holds the single
    record of the cancellation panel and the other ten charts are shown. *)
Theorem error_free_iff (draw : Figure -> result unit) (view : DataFrame) :
  (forall fig, draw fig = Ok tt) ->
  let col := map is_canceled view in
  let st := run_dashboard draw view in
  log st
  = (if mem Bool.eqb true col && mem Bool.eqb false col then []
     else [{| levelname := ERROR;
              message := "Cancellation chart error: 'label' must be of length 'x'" |}])
  /\ List.length (charts (page st))
     = (if mem Bool.eqb true col && mem Bool.eqb false col then 11 else 10)%nat.
Proof.
  intros Hdraw col st.
  assert (Hlog : log st
    = if mem Bool.eqb true col && mem Bool.eqb false col then []
      else [{| levelname := ERROR;
               message := "Cancellation chart error: 'label' must be of length 'x'" |}]).
  { subst st. unfold run_dashboard.
    destruct (run_with_alone draw panels view panels_read_rows) as [_ Hlg].
    rewrite Hlg. unfold panels. cbn [flat_map]. unfold outcome at 2 3 4 5 6 7 8 9 10 11.
    cbn [body panel_2 panel_3 panel_4 panel_5 panel_6 panel_7 panel_8 panel_9
         panel_10 panel_11 reading snd rows fresh].
    rewrite !Hdraw. cbn [panel_log app]. rewrite app_nil_r.
    unfold outcome.
    destruct (mem Bool.eqb true col && mem Bool.eqb false col) eqn:E.
    - apply andb_true_iff in E. destruct E as [Et Ef].
      apply (mem_In bool_eqb_eq) in Et, Ef.
      destruct (panel_1_draws view Et Ef) as [a [Hfig _]].
      rewrite Hfig, Hdraw. reflexivity.
    - rewrite panel_1_raises; [reflexivity|].
      intros [Et Ef]. apply (mem_In bool_eqb_eq) in Et, Ef.
      subst col. rewrite Et, Ef in E. discriminate. }
  split; [exact Hlog|].
  pose proof (page_accounting_aux draw view) as Hacc. fold st in Hacc.
  rewrite Hlog in Hacc.
  destruct (mem Bool.eqb true col && mem Bool.eqb false col);
    cbn [List.length] in Hacc; lia.
Qed.

Lemma error_free_iff_witness :
  log (run_dashboard draw_ok one_canceled)
  = [{| levelname := ERROR;
        message := "Cancellation chart error: 'label' must be of length 'x'" |}]
  /\ List.length (charts (page (run_dashboard draw_ok one_canceled))) = 10%nat.
Proof.
  apply (error_free_iff draw_ok one_canceled). reflexivity.
Defined.

(** ** Derived dates agree with the fields *)

Local Open Scope Z_scope.

Lemma month_number_nth (m : string) (k : Z) :
  month_number m = Some k ->
  nth_error month_order (Z.to_nat (k - 1)) = Some m.
Proof.
  intros H. apply month_number_cases in H. simpl in H.
  repeat (destruct H as [[= <- <-]|H]; [reflexivity|]). contradiction.
Qed.





Local Close Scope Z_scope.

(** ** Sidebar options and selections *)

(** X18: each sidebar control offers every value of its column exactly
    once, in the order in which the values first appear in the table. *)
Theorem widget_options (df : DataFrame) :
  let offered (col : list string) (opts : list string) :=
    NoDup opts
    /\ (forall x, In x opts <-> In x col)
    /\ StronglySorted (first_encountered col) opts in
  offered (map hotel df) (options (hotel_type_widget df))
  /\ offered (map arrival_date_month df) (options (month_widget df)).
Proof.
  intros offered.
  assert (H : forall col, offered col (unique String.eqb col)).
  { intros col. split; [|split].
    - apply (unique_NoDup string_eqb_eq).
    - intros x. apply (unique_In string_eqb_eq).
    - apply (unique_from_first_seen string_eqb_eq). }
  split; apply H.
Qed.

Lemma filter_sublist_In (A : Type) (p q : A -> bool) (l : list A) :
  (forall x, In x l -> p x = true -> q x = true) ->
  incl (filter p l) (filter q l)
  /\ (List.length (filter p l) <= List.length (filter q l))%nat.
Proof.
  intros H. split.
  - intros x Hx. apply filter_In in Hx. apply filter_In.
    destruct Hx as [Hin Hp]. auto.
  - induction l as [|x l IH]; simpl; [lia|].
    assert (IH' : (List.length (filter p l) <= List.length (filter q l))%nat).
    { apply IH. intros y Hy. apply H. now right. }
    destruct (p x) eqn:Ep.
    + rewrite (H x (or_introl eq_refl) Ep). simpl. lia.
    + destruct (q x); simpl; lia.
Qed.

(** X19: selecting more never removes a row: when every selected hotel and
    every selected month of one selection is also selected in another, each
    row of the first view is a row of the second and the first view has no
    more rows; two selections with the same values, in whatever order and
    however often repeated, give the same view. *)
Theorem selection_monotone (df : DataFrame) (h h' m m' : list string) :
  (incl h h' -> incl m m' ->
   incl (df_filtered df h m) (df_filtered df h' m')
   /\ (List.length (df_filtered df h m)
       <= List.length (df_filtered df h' m'))%nat)
  /\ ((forall x, In x h <-> In x h') -> (forall x, In x m <-> In x m') ->
      df_filtered df h m = df_filtered df h' m').
Proof.
  split.
  - intros Hh Hm. rewrite !select_rows_isin. apply filter_sublist_In.
    intros r _. unfold row_selected. rewrite !andb_true_iff.
    rewrite !(mem_In string_eqb_eq). intros [H1 H2]. auto.
  - intros Hh Hm. rewrite !select_rows_isin. apply filter_ext. intros r.
    unfold row_selected.
    now rewrite (mem_same_members string_eqb_eq _ h h' Hh),
                (mem_same_members string_eqb_eq _ m m' Hm).
Qed.

Lemma selection_monotone_witness :
  (List.length (df_filtered table_with_odd_month ["City Hotel"] ["July"])
   <= List.length (df_filtered table_with_odd_month ["City Hotel"]
                     ["March"; "July"]))%nat.
Proof.
  apply (proj1 (selection_monotone table_with_odd_month
                  ["City Hotel"] ["City Hotel"] ["July"] ["March"; "July"])).
  - intros x Hx. exact Hx.
  - intros x [<-|[]]. right. now left.
Defined.

(** ** Bookings covered by the top-countries list *)

Lemma sum_firstn_le (n : nat) (l : list nat) :
  (fold_right Nat.add 0 (firstn n l) <= fold_right Nat.add 0 l)%nat.
Proof.
  revert n. induction l as [|x l IH]; intros [|n]; simpl; try lia.
  specialize (IH n). lia.
Qed.

Lemma firstn_map (A B : Type) (f : A -> B) (n : nat) (l : list A) :
  firstn n (map f l) = map f (firstn n l).
Proof.
  revert n. induction l as [|x l IH]; intros [|n]; simpl; try reflexivity.
  now rewrite IH.
Qed.

(** X20: the counts of the top-countries list add up to at most the number
    of bookings of the view that have a country, and to exactly that number
    when the view holds at most ten countries. *)
Theorem top_countries_cover (view : DataFrame) :
  let col := dropna (map country view) in
  (counts_sum (top_countries view) <= List.length col)%nat
  /\ ((List.length (unique String.eqb col) <= 10)%nat ->
      counts_sum (top_countries view) = List.length col).
Proof.
  intros col. unfold top_countries, head, counts_sum. fold col. split.
  - rewrite <- firstn_map.
    pose proof (counts_sum_value_counts string_eqb_eq col) as E.
    unfold counts_sum in E. rewrite <- E. apply sum_firstn_le.
  - intros Hlen. rewrite firstn_all2.
    + apply (counts_sum_value_counts string_eqb_eq).
    + now rewrite value_counts_length.
Qed.

Lemma top_countries_cover_witness :
  counts_sum (top_countries two_countries_same_rate)
  = List.length (dropna (map country two_countries_same_rate)).
Proof.
  apply (proj2 (top_countries_cover two_countries_same_rate)).
  vm_compute. repeat constructor.
Defined.
